(** * Procesamiento de emisiones CDMX: a shallow embedding of
      [procesamiento_emisiones_cdmx_doc.py] and its pipeline properties.

    The pipeline reads wide monthly tables (one row per station, pollutant,
    year and month, with day columns [D01..D31]), reshapes them to long
    format, synthesises a calendar date, drops invalid dates, sorts, and
    answers aggregate queries.

    Modelling conventions.
    - A pandas cell is a [cell]: a missing marker, a number or a string.
      Numbers are exact rationals; floating-point rounding and infinities
      are outside the model.
    - A [DataFrame] is a list of column labels and a list of rows.  Labels
      are ASCII strings; frames built by [read_csv] and [concat] have
      pairwise distinct labels.
    - Python exceptions are values of [exn]; a function that may raise
      returns a [result].
    - Library calls (pandas, re, os) are modelled by their documented
      contract, each one next to the source line that uses it. *)

From Stdlib Require Import ZArith QArith Qreduction List String Ascii Bool Lia.
From Stdlib Require Import Sorted Permutation.
Import ListNotations.

Local Open Scope string_scope.
Local Open Scope list_scope.
Local Open Scope Z_scope.

(* ================================================================== *)
(** * Values, exceptions and the result monad                          *)
(* ================================================================== *)

(** A cell of a frame of dtype int64, float64 or object. *)
Inductive cell : Type :=
| NaN
| Num (q : Q)
| Str (s : string).

Record DataFrame : Type := mkDataFrame {
  columns : list string;
  rows : list (list cell)
}.

(** The exceptions the modelled code can raise. *)
Inductive exn : Type :=
| RuntimeError (data_dir : string)       (* cargar_todo: no emisiones-*.csv found *)
| KeyError (missing : list string)       (* filtrar_columnas: "Faltan columnas base" *)
| KeyError_label (labels : list string)  (* pandas: label not in the frame *)
| ValueError (s : string)                (* int(s) on a string that is no integer *)
| TypeError                              (* astype("Int64") on a non-integer number *)
| OSError (path : string)                (* os.listdir on a path that cannot be listed *)
| ParserError (path : string).           (* pd.read_csv on a file it cannot read *)

Inductive result (A : Type) : Type :=
| Ok (a : A)
| Raise (e : exn).
Arguments Ok {A} a.
Arguments Raise {A} e.

Definition bind {A B : Type} (m : result A) (f : A -> result B) : result B :=
  match m with
  | Ok a => f a
  | Raise e => Raise e
  end.

Notation "x <- m ;; k" := (bind m (fun x => k))
  (at level 61, m at next level, right associativity).

(** A comprehension or a column-wise operation that may raise: the first
    failing element aborts the whole traversal. *)
Fixpoint mapM {A B : Type} (f : A -> result B) (l : list A) : result (list B) :=
  match l with
  | [] => Ok []
  | a :: l' => b <- f a ;; bs <- mapM f l' ;; Ok (b :: bs)
  end.

(* ================================================================== *)
(** * Orders used by [sorted], [sort_values] and [groupby]             *)
(* ================================================================== *)

Definition leb_of (c : comparison) : bool :=
  match c with Gt => false | _ => true end.

Definition eqb_of (c : comparison) : bool :=
  match c with Eq => true | _ => false end.

(** Position of a cell in an ascending sort with [na_position="last"]:
    numbers by value, then strings by code point, then missing values. *)
Definition cell_compare (a b : cell) : comparison :=
  match a, b with
  | Num p, Num q => Qcompare p q
  | Num _, _ => Lt
  | Str _, Num _ => Gt
  | Str s, Str t => String.compare s t
  | Str _, NaN => Lt
  | NaN, NaN => Eq
  | NaN, _ => Gt
  end.

(** [a == b] on cells: a missing value equals nothing. *)
Definition cell_eqb (a b : cell) : bool :=
  match a, b with
  | NaN, _ | _, NaN => false
  | _, _ => eqb_of (cell_compare a b)
  end.

Definition isna (c : cell) : bool :=
  match c with NaN => true | _ => false end.

(** A calendar date (a Timestamp at midnight). *)
Record date : Type := mkDate { year : Z; month : Z; day : Z }.

Definition lex (c : comparison) (k : comparison) : comparison :=
  match c with Eq => k | _ => c end.

Definition date_compare (a b : date) : comparison :=
  lex (year a ?= year b) (lex (month a ?= month b) (day a ?= day b)).

(** NaT sorts last. *)
Definition fecha_compare (a b : option date) : comparison :=
  match a, b with
  | Some x, Some y => date_compare x y
  | Some _, None => Lt
  | None, Some _ => Gt
  | None, None => Eq
  end.

Section StableSort.
Context {A : Type}.
Variable cmp : A -> A -> comparison.

(** Insert [a] in front of the first element that is not smaller. *)
Fixpoint insert_sorted (a : A) (l : list A) : list A :=
  match l with
  | [] => [a]
  | b :: l' => if leb_of (cmp a b) then a :: l else b :: insert_sorted a l'
  end.

(** A stable sort: what [sorted], [np.lexsort] and the sorted
    factorisation of [groupby] compute on a total preorder. *)
Fixpoint sort_stable (l : list A) : list A :=
  match l with
  | [] => []
  | a :: l' => insert_sorted a (sort_stable l')
  end.

(** Distinct values, the first occurrence of each kept. *)
Fixpoint dedup (l : list A) : list A :=
  match l with
  | [] => []
  | a :: l' => a :: filter (fun b => negb (eqb_of (cmp a b))) (dedup l')
  end.

(** [sorted(set(l))] / the sorted group keys of a [groupby]. *)
Definition sorted_unique (l : list A) : list A := sort_stable (dedup l).
End StableSort.

(** [sorted(l, key=key)] for an integer key. *)
Definition sorted_by_key {A : Type} (key : A -> Z) (l : list A) : list A :=
  sort_stable (fun a b => key a ?= key b) l.

(* ================================================================== *)
(** * Schema filter: [filtrar_columnas]                                *)
(* ================================================================== *)

Definition is_digit (c : ascii) : bool :=
  ((48 <=? nat_of_ascii c) && (nat_of_ascii c <=? 57))%nat.

Definition digit_val (c : ascii) : Z := Z.of_nat (nat_of_ascii c) - 48.

(** [re.fullmatch(r"D\d{2}", c)]: the letter D and exactly two digits. *)
Definition is_day_col (c : string) : bool :=
  match c with
  | String "D" (String a (String b EmptyString)) => is_digit a && is_digit b
  | _ => false
  end.

(** [x[1:]] *)
Definition tail_str (x : string) : string :=
  match x with
  | EmptyString => EmptyString
  | String _ t => t
  end.

Fixpoint int_digits (acc : Z) (s : string) : option Z :=
  match s with
  | EmptyString => Some acc
  | String c t => if is_digit c then int_digits (10 * acc + digit_val c) t else None
  end.

(** [int(s)] on a string of decimal digits; any other string raises
    ValueError (signs, blanks and underscores, which [int] also accepts,
    never reach it here: its argument is the tail of a matched label). *)
Definition py_int (s : string) : result Z :=
  match s with
  | EmptyString => Raise (ValueError s)
  | _ => match int_digits 0 s with
         | Some z => Ok z
         | None => Raise (ValueError s)
         end
  end.

Definition base_cols : list string := ["ESTACION"; "MAGNITUD"; "ANO"; "MES"].

Definition has_col (df : DataFrame) (c : string) : bool :=
  existsb (String.eqb c) (columns df).

(** Positions of the columns labelled [c]. *)
Fixpoint positions_from (i : nat) (c : string) (cols : list string) : list nat :=
  match cols with
  | [] => []
  | x :: cols' =>
      if String.eqb c x then i :: positions_from (S i) c cols'
      else positions_from (S i) c cols'
  end.

(** [df[labels]]: for each label in turn, every column that carries it;
    KeyError when a label is absent. *)
Definition getitem_cols (labels : list string) (df : DataFrame) : result DataFrame :=
  match filter (fun c => negb (has_col df c)) labels with
  | [] =>
      let idx := flat_map (fun c => positions_from 0 c (columns df)) labels in
      Ok {| columns := map (fun i => nth i (columns df) "") idx;
            rows := map (fun r => map (fun i => nth i r NaN) idx) (rows df) |}
  | absent => Raise (KeyError_label absent)
  end.

(** [sorted(day_cols, key=lambda x: int(x[1:]))]: the keys are computed
    first (any failure aborts), then the labels are sorted stably. *)
Definition sort_day_cols (day_cols : list string) : result (list string) :=
  keyed <- mapM (fun x => k <- py_int (tail_str x) ;; Ok (k, x)) day_cols ;;
  Ok (map snd (sorted_by_key fst keyed)).

Definition filtrar_columnas (emisiones_raw : DataFrame) : result DataFrame :=
  let day_cols := filter is_day_col (columns emisiones_raw) in
  day_cols <- sort_day_cols day_cols ;;
  let missing := filter (fun c => negb (has_col emisiones_raw c)) base_cols in
  match missing with
  | [] => getitem_cols (base_cols ++ day_cols) emisiones_raw
  | _ => Raise (KeyError missing)
  end.

(* ================================================================== *)
(** * Reshape engine and date synthesis: [a_formato_largo]             *)
(* ================================================================== *)

(** The cell of row [r] under the (first) column labelled [c]. *)
Definition get_cell (df : DataFrame) (c : string) (r : list cell) : cell :=
  match positions_from 0 c (columns df) with
  | i :: _ => nth i r NaN
  | [] => NaN
  end.

(** One row of [DataFrame.melt]: the identifier cells, the label of the
    melted column and its cell. *)
Record MeltRow : Type := mkMeltRow {
  ids : list cell;
  variable : string;
  value : cell
}.

(** [df.melt(id_vars, value_vars, ...)]: KeyError when a label is absent;
    otherwise one row per (value column, input row), value columns outermost. *)
Definition melt (id_vars value_vars : list string) (df : DataFrame)
  : result (list MeltRow) :=
  match filter (fun c => negb (has_col df c)) (id_vars ++ value_vars) with
  | [] =>
      Ok (flat_map
            (fun v => map (fun r => {| ids := map (fun c => get_cell df c r) id_vars;
                                       variable := v;
                                       value := get_cell df v r |})
                          (rows df))
            value_vars)
  | absent => Raise (KeyError_label absent)
  end.

(** A record of the long table. [ANO] and [MES] are nullable Int64 values,
    [VALOR] a float or NaN, [FECHA] a Timestamp or NaT. *)
Record LongRecord : Type := mkLongRecord {
  ESTACION : cell;
  MAGNITUD : cell;
  ANO : option Z;
  MES : option Z;
  DIA_STR : string;
  VALOR : option Q;
  DIA : Z;
  FECHA : option date
}.

Definition int64_min : Z := - 2 ^ 63.
Definition int64_max : Z := 2 ^ 63 - 1.

(** [.astype("Int64")] on a float column: NaN becomes <NA>; a number is
    cast only when the cast is lossless, otherwise TypeError
    ("cannot safely cast non-equivalent float64 to int64"). *)
Definition astype_Int64 (v : option Q) : result (option Z) :=
  match v with
  | None => Ok None
  | Some q =>
      let z := Qnum q / Zpos (Qden q) in
      if (Qnum q mod Zpos (Qden q) =? 0) && (int64_min <=? z) && (z <=? int64_max)
      then Ok (Some z)
      else Raise TypeError
  end.

(** Gregorian calendar. *)
Definition is_leap (y : Z) : bool :=
  (y mod 4 =? 0) && (negb (y mod 100 =? 0) || (y mod 400 =? 0)).

Definition days_in_month (y m : Z) : Z :=
  if m =? 2 then (if is_leap y then 29 else 28)
  else if (m =? 4) || (m =? 6) || (m =? 9) || (m =? 11) then 30
  else 31.

Definition is_calendar_date (y m d : Z) : bool :=
  (1 <=? m) && (m <=? 12) && (1 <=? d) && (d <=? days_in_month y m).

(** First and last midnight a Timestamp can hold. *)
Definition Timestamp_min : date := mkDate 1677 9 22.
Definition Timestamp_max : date := mkDate 2262 4 11.

Definition in_Timestamp_range (t : date) : bool :=
  leb_of (date_compare Timestamp_min t) && leb_of (date_compare t Timestamp_max).

(** [pd.to_datetime(dict(year=, month=, day=), errors="coerce")] on one
    row: the Timestamp of that day when the three numbers name a calendar
    day a Timestamp can hold, NaT otherwise (a missing component included). *)
Definition to_datetime (y m : option Z) (d : Z) : option date :=
  match y, m with
  | Some y, Some m =>
      if is_calendar_date y m d && in_Timestamp_range (mkDate y m d)
      then Some (mkDate y m d)
      else None
  | _, _ => None
  end.

Section Reshape.

(** The numeric parser of [pd.to_numeric] on strings. *)
Variable str_to_num : string -> option Q.

(** [pd.to_numeric(., errors="coerce")] on one cell. *)
Definition to_numeric (c : cell) : option Q :=
  match c with
  | NaN => None
  | Num q => Some q
  | Str s => str_to_num s
  end.

Definition a_formato_largo (emisiones_filtrado : DataFrame) : result (list LongRecord) :=
  let day_cols := filter is_day_col (columns emisiones_filtrado) in
  long_df <- melt base_cols day_cols emisiones_filtrado ;;
  (* long_df["DIA"] = long_df["DIA_STR"].str[1:].astype(int) *)
  with_dia <- mapM (fun m => d <- py_int (tail_str (variable m)) ;; Ok (m, d)) long_df ;;
  (* for col in ["ANO", "MES"]: to_numeric(errors="coerce").astype("Int64") *)
  with_ano <- mapM (fun md => a <- astype_Int64 (to_numeric (nth 2 (ids (fst md)) NaN)) ;;
                              Ok (md, a)) with_dia ;;
  with_mes <- mapM (fun mda => e <- astype_Int64 (to_numeric (nth 3 (ids (fst (fst mda))) NaN)) ;;
                               Ok (mda, e)) with_ano ;;
  (* FECHA = to_datetime(...); VALOR = to_numeric(VALOR, errors="coerce") *)
  Ok (map (fun x =>
             let '(m, d, a, e) := x in
             {| ESTACION := nth 0 (ids m) NaN;
                MAGNITUD := nth 1 (ids m) NaN;
                ANO := a;
                MES := e;
                DIA_STR := variable m;
                VALOR := to_numeric (value m);
                DIA := d;
                FECHA := to_datetime a e d |})
          with_mes).

End Reshape.

(* ================================================================== *)
(** * Cleaner / sorter: [limpiar_y_ordenar]                            *)
(* ================================================================== *)

Definition notna_fecha (r : LongRecord) : bool :=
  match FECHA r with Some _ => true | None => false end.

(** Row order of [sort_values(by=["ESTACION", "MAGNITUD", "FECHA"])]. *)
Definition sort_key_compare (r1 r2 : LongRecord) : comparison :=
  lex (cell_compare (ESTACION r1) (ESTACION r2))
      (lex (cell_compare (MAGNITUD r1) (MAGNITUD r2))
           (fecha_compare (FECHA r1) (FECHA r2))).

(** [sort_values] on several columns sorts the factorised keys with a
    lexsort, which is stable ([kind] only applies to a single sort key);
    missing keys go last. *)
Definition limpiar_y_ordenar (long_df : list LongRecord) : list LongRecord :=
  let df := filter notna_fecha long_df in        (* dropna(subset=["FECHA"]) *)
  sort_stable sort_key_compare df.               (* sort_values(by=[...]) *)

(* ================================================================== *)
(** * Aggregation engine                                               *)
(* ================================================================== *)

(** The non-missing entries of a column. *)
Definition notna_values (l : list (option Q)) : list Q :=
  flat_map (fun v => match v with Some q => [q] | None => [] end) l.

Definition Qsum (l : list Q) : Q := fold_right Qplus 0%Q l.

Definition Qlen (l : list Q) : Q := inject_Z (Z.of_nat (List.length l)).

(** Aggregations of [groupby]: they skip missing values, and give NaN
    when nothing is left ([std] with [ddof=1]: when fewer than two are). *)
Definition agg_count (vals : list Q) : nat := List.length vals.

Definition agg_mean (vals : list Q) : option Q :=
  match vals with
  | [] => None
  | _ => Some (Qsum vals / Qlen vals)%Q
  end.

(** The sample variance; the [std] column is its square root. *)
Definition agg_var (vals : list Q) : option Q :=
  match agg_mean vals with
  | Some mu =>
      if (2 <=? List.length vals)%nat
      then Some (Qsum (map (fun x => (x - mu) * (x - mu)) vals)
                 / (Qlen vals - 1))%Q
      else None
  | None => None
  end.

Definition agg_min (vals : list Q) : option Q :=
  match vals with
  | [] => None
  | x :: t => Some (fold_left (fun a b => if Qle_bool b a then b else a) t x)
  end.

Definition agg_max (vals : list Q) : option Q :=
  match vals with
  | [] => None
  | x :: t => Some (fold_left (fun a b => if Qle_bool a b then b else a) t x)
  end.

Section GroupBy.
Context {K : Type}.
Variable cmp : K -> K -> comparison.
(** The grouping key of a record; [None] when a key column is missing
    there ([groupby] drops such rows). *)
Variable key : LongRecord -> option K.

Definition keys_of (df : list LongRecord) : list K :=
  flat_map (fun r => match key r with Some k => [k] | None => [] end) df.

Definition in_group (k : K) (r : LongRecord) : bool :=
  match key r with
  | Some k' => eqb_of (cmp k k')
  | None => false
  end.

(** [df.groupby(keys)["VALOR"].agg(f)]: one entry per observed key, keys
    ascending, [f] applied to the non-missing values of the group. *)
Definition groupby_VALOR {B : Type} (f : list Q -> B) (df : list LongRecord)
  : list (K * B) :=
  map (fun k => (k, f (notna_values (map VALOR (filter (in_group k) df)))))
      (sorted_unique cmp (keys_of df)).
End GroupBy.

Record SummaryRow : Type := mkSummaryRow {
  s_ESTACION : cell;
  s_MAGNITUD : cell;
  count : nat;
  promedio : option Q;
  desv_std_sq : option Q;     (* square of the column desv_std *)
  min_VALOR : option Q;       (* column min *)
  max_VALOR : option Q        (* column max *)
}.

Definition pair_compare (a b : cell * cell) : comparison :=
  lex (cell_compare (fst a) (fst b)) (cell_compare (snd a) (snd b)).

Definition key_estacion_magnitud (r : LongRecord) : option (cell * cell) :=
  if isna (ESTACION r) || isna (MAGNITUD r) then None
  else Some (ESTACION r, MAGNITUD r).

Definition resumen_estadistico (df : list LongRecord) : list SummaryRow :=
  map (fun kv =>
         let '(k, vals) := kv in
         {| s_ESTACION := fst k;
            s_MAGNITUD := snd k;
            count := agg_count vals;
            promedio := agg_mean vals;
            desv_std_sq := agg_var vals;
            min_VALOR := agg_min vals;
            max_VALOR := agg_max vals |})
      (groupby_VALOR pair_compare key_estacion_magnitud (fun vals => vals) df).

(** A pivoted table: row labels, column labels and one row of cells per
    row label; [None] is an empty (NaN) cell. *)
Record Matrix (I C : Type) : Type := mkMatrix {
  index : list I;
  mcolumns : list C;
  mvalues : list (list (option Q))
}.
Arguments mkMatrix {I C} _ _ _.
Arguments index {I C} _.
Arguments mcolumns {I C} _.
Arguments mvalues {I C} _.

Section Pivot.
Context {I C : Type}.
Variable cmpI : I -> I -> comparison.
Variable cmpC : C -> C -> comparison.

Definition same_entry (i : I) (c : C) (e : (I * C) * option Q) : bool :=
  eqb_of (cmpI i (fst (fst e))) && eqb_of (cmpC c (snd (fst e))).


Definition entry_value (entries : list ((I * C) * option Q)) (i : I) (c : C)
  : option Q :=
  match find (same_entry i c) entries with
  | Some e => snd e
  | None => None
  end.

(** The reshape shared by [pivot] and [pivot_table]: sorted distinct row
    and column labels; a cell with no entry is NaN. *)
Definition unstack (entries : list ((I * C) * option Q)) : Matrix I C :=
  let idx := sorted_unique cmpI (map (fun e => fst (fst e)) entries) in
  let cols := sorted_unique cmpC (map (fun e => snd (fst e)) entries) in
  mkMatrix idx cols
           (map (fun i => map (fun c => entry_value entries i c) cols) idx).


(** [.pivot_table(index=, columns=, values=)] with the default
    [aggfunc="mean"] and [dropna=True]: entries are averaged per
    (index, columns) pair, pairs whose mean is NaN are dropped, and the
    rest is reshaped. *)
Definition pivot_table (entries : list ((I * C) * option Q)) : Matrix I C :=
  let pair_cmp := fun a b : I * C => lex (cmpI (fst a) (fst b)) (cmpC (snd a) (snd b)) in
  let agged :=
    map (fun k => (k, agg_mean (notna_values
                        (map snd (filter (same_entry (fst k) (snd k)) entries)))))
        (sorted_unique pair_cmp (map fst entries)) in
  unstack (filter (fun e => match snd e with Some _ => true | None => false end) agged).

(** The cell of a matrix at row label [i] and column label [c]; [None]
    when the label is absent or the cell is NaN. *)
Definition matrix_get (m : Matrix I C) (i : I) (c : C) : option Q :=
  match find (fun p => eqb_of (cmpI i (fst p))) (combine (index m) (mvalues m)) with
  | Some (_, row) =>
      match find (fun p => eqb_of (cmpC c (fst p))) (combine (mcolumns m) row) with
      | Some (_, v) => v
      | None => None
      end
  | None => None
  end.
End Pivot.

Definition opt_Z_eqb (a : option Z) (b : Z) : bool :=
  match a with Some z => z =? b | None => false end.




Definition key_ano_mes_magnitud (r : LongRecord) : option ((Z * Z) * cell) :=
  match ANO r, MES r with
  | Some a, Some m => if isna (MAGNITUD r) then None else Some ((a, m), MAGNITUD r)
  | _, _ => None
  end.

Definition ZZ_compare (a b : Z * Z) : comparison :=
  lex (fst a ?= fst b) (snd a ?= snd b).

Definition ZZ_cell_compare (a b : (Z * Z) * cell) : comparison :=
  lex (ZZ_compare (fst a) (fst b)) (cell_compare (snd a) (snd b)).

Definition medidas_mensuales_por_estacion
  (df_long : list LongRecord) (estacion_codigo : Z) (ano : option Z)
  : Matrix (Z * Z) cell :=
  let tmp := filter (fun r => cell_eqb (ESTACION r) (Num (inject_Z estacion_codigo)))
                    df_long in
  let tmp := match ano with
             | Some a => filter (fun r => opt_Z_eqb (ANO r) a) tmp
             | None => tmp
             end in
  pivot_table ZZ_compare cell_compare
              (groupby_VALOR ZZ_cell_compare key_ano_mes_magnitud agg_mean tmp).

(* ================================================================== *)
(** * Ingestion: [cargar_todo], and the pipeline of [main]             *)
(* ================================================================== *)

(** What a run prints or reads, in order. *)
Inductive event : Type :=
| EvRead (path : string)                       (* pd.read_csv(path, sep=";") *)
| EvLeido (fn : string) (shape : nat * nat)    (* print(f"Leído {fn}: {df.shape}") *)
| EvConcatenado (shape : nat * nat)            (* print("Concatenado:", raw.shape) *)
| EvMuestra (nombre : string) (filas : nat).   (* _mostrar_muestras(tabla, nombre) *)

(** A computation that may raise and leaves a trace of events. *)
Definition io (A : Type) : Type := (list event * result A)%type.

Definition io_ret {A : Type} (a : A) : io A := ([], Ok a).

Definition io_bind {A B : Type} (m : io A) (f : A -> io B) : io B :=
  match m with
  | (t, Ok a) => let '(t', r) := f a in (t ++ t', r)
  | (t, Raise e) => (t, Raise e)
  end.

Definition emit (e : event) : io unit := ([e], Ok tt).

Definition lift {A : Type} (r : result A) : io A := ([], r).

Notation "x <-- m ;;; k" := (io_bind m (fun x => k))
  (at level 61, m at next level, right associativity).

Definition startswith (s p : string) : bool := String.prefix p s.

Definition endswith (s p : string) : bool :=
  (String.length p <=? String.length s)%nat
  && String.eqb (substring (String.length s - String.length p) (String.length p) s) p.

Definition shape (df : DataFrame) : nat * nat :=
  (List.length (rows df), List.length (columns df)).

(** [df[c] = v] for a scalar [v]: overwrite the column, or append it. *)
Definition setitem_const (c : string) (v : cell) (df : DataFrame) : DataFrame :=
  match positions_from 0 c (columns df) with
  | [] => {| columns := columns df ++ [c];
             rows := map (fun r => r ++ [v]) (rows df) |}
  | ps => {| columns := columns df;
             rows := map (fun r => map (fun ic => if existsb (Nat.eqb (fst ic)) ps
                                                  then v else snd ic)
                                       (combine (seq 0 (List.length r)) r))
                         (rows df) |}
  end.

(** [pd.concat(dfs, ignore_index=True)]: the union of the labels in order
    of first appearance; a frame without a label contributes NaN. *)
Definition concat (dfs : list DataFrame) : DataFrame :=
  let cols := dedup String.compare (flat_map columns dfs) in
  {| columns := cols;
     rows := flat_map (fun df => map (fun r => map (fun c => get_cell df c r) cols)
                                     (rows df)) dfs |}.

Section Pipeline.

(** [os.listdir]: the names in a directory, [None] when it cannot be listed. *)
Variable listdir : string -> option (list string).
(** [os.path.join]. *)
Variable path_join : string -> string -> string.
(** [pd.read_csv(path, sep=";", low_memory=False)]: [None] when the file
    cannot be read or parsed. *)
Variable read_csv : string -> option DataFrame.
Variable str_to_num : string -> option Q.

Definition read_emisiones_csv (path : string) : io DataFrame :=
  _ <-- emit (EvRead path) ;;;
  match read_csv path with
  | Some df => io_ret df
  | None => lift (Raise (ParserError path))
  end.

(** The loop of [cargar_todo] over the files found. *)
Fixpoint leer_archivos (data_dir : string) (files : list string) : io (list DataFrame) :=
  match files with
  | [] => io_ret []
  | fn :: files' =>
      let full := path_join data_dir fn in
      df <-- read_emisiones_csv full ;;;
      let df := setitem_const "__ARCHIVO__" (Str fn) df in
      _ <-- emit (EvLeido fn (shape df)) ;;;
      dfs <-- leer_archivos data_dir files' ;;;
      io_ret (df :: dfs)
  end.

Definition es_archivo_emisiones (f : string) : bool :=
  startswith f "emisiones-" && endswith f ".csv".

Definition cargar_todo (data_dir : string) : io DataFrame :=
  match listdir data_dir with
  | None => lift (Raise (OSError data_dir))
  | Some names =>
      let files := sort_stable String.compare (filter es_archivo_emisiones names) in
      match files with
      | [] => lift (Raise (RuntimeError data_dir))
      | _ =>
          dfs <-- leer_archivos data_dir files ;;;
          let raw := concat dfs in
          _ <-- emit (EvConcatenado (shape raw)) ;;;
          io_ret raw
      end
  end.

(** The tables [main] builds, in the order it builds them (steps 1 to 8;
    the catalogue printout, the export and the plots consume them). *)
Definition main (data_dir : string)
  : io (DataFrame * list LongRecord * list LongRecord * list SummaryRow) :=
  raw <-- cargar_todo data_dir ;;;
  filtrado <-- lift (filtrar_columnas raw) ;;;
  _ <-- emit (EvMuestra "Paso 3 - Columnas filtradas" (List.length (rows filtrado))) ;;;
  largo <-- lift (a_formato_largo str_to_num filtrado) ;;;
  _ <-- emit (EvMuestra "Paso 4-5 - Formato largo con FECHA" (List.length largo)) ;;;
  let validas := limpiar_y_ordenar largo in
  _ <-- emit (EvMuestra "Paso 6 - Limpio + ordenado" (List.length validas)) ;;;
  let desc := resumen_estadistico validas in
  _ <-- emit (EvMuestra "Paso 8 - Resumen" (List.length desc)) ;;;
  io_ret (filtrado, largo, validas, desc).

End Pipeline.

(** A parser for plain decimal literals ([12], [-3], [4.25]), used to run
    the pipeline on concrete tables. *)
Fixpoint frac_digits (num : Z) (den : positive) (s : string) : option Q :=
  match s with
  | EmptyString => Some (num # den)
  | String c t =>
      if is_digit c then frac_digits (10 * num + digit_val c) (10 * den)%positive t
      else None
  end.

Fixpoint decimal_digits (acc : Z) (seen : bool) (s : string) : option Q :=
  match s with
  | EmptyString => if seen then Some (inject_Z acc) else None
  | String c t =>
      if is_digit c then decimal_digits (10 * acc + digit_val c) true t
      else if Ascii.eqb c "." then
             (if seen then match t with
                           | EmptyString => None
                           | _ => frac_digits acc 1 t
                           end
              else None)
      else None
  end.

Definition parse_decimal (s : string) : option Q :=
  match s with
  | String "-" t => option_map Qopp (decimal_digits 0 false t)
  | _ => decimal_digits 0 false s
  end.

(* ================================================================== *)
(** * Predicates used in the statements                                *)
(* ================================================================== *)

Definition cmp_antisym {A : Type} (cmp : A -> A -> comparison) : Prop :=
  forall a b, cmp b a = CompOpp (cmp a b).

Definition cmp_eq_trans {A : Type} (cmp : A -> A -> comparison) : Prop :=
  forall k a b, cmp k a = Eq -> cmp k b = Eq -> cmp a b = Eq.

(** [a] is not after [b]. *)
Definition le_of {A : Type} (cmp : A -> A -> comparison) (a b : A) : Prop :=
  cmp a b <> Gt.

(** Order of two cells in an ascending sort. *)
Definition cell_lt (a b : cell) : Prop := cell_compare a b = Lt.
Definition cell_same (a b : cell) : Prop := cell_compare a b = Eq.
Definition fecha_le (a b : option date) : Prop := fecha_compare a b <> Gt.
Definition fecha_same (a b : option date) : Prop := fecha_compare a b = Eq.

(** [(r1.ESTACION, r1.MAGNITUD, r1.FECHA) <= (r2.ESTACION, r2.MAGNITUD,
    r2.FECHA)], lexicographically. *)
Definition sort_key_le (r1 r2 : LongRecord) : Prop :=
  cell_lt (ESTACION r1) (ESTACION r2)
  \/ (cell_same (ESTACION r1) (ESTACION r2)
      /\ (cell_lt (MAGNITUD r1) (MAGNITUD r2)
          \/ (cell_same (MAGNITUD r1) (MAGNITUD r2)
              /\ fecha_le (FECHA r1) (FECHA r2)))).

(** The records that agree with [k] on the three sort keys. *)
Definition same_sort_key (k r : LongRecord) : bool :=
  eqb_of (sort_key_compare k r).

(** The number a day label carries in its two-digit suffix. *)
Definition day_number (c : string) : Z :=
  match c with
  | String _ (String a (String b EmptyString)) => 10 * digit_val a + digit_val b
  | _ => 0
  end.

(** A float that [astype("Int64")] accepts: missing, or a whole number in
    the int64 range. *)
Definition is_integral (v : option Q) : bool :=
  match v with
  | None => true
  | Some q =>
      (Qnum q mod Zpos (Qden q) =? 0)
      && (int64_min <=? Qnum q / Zpos (Qden q))
      && (Qnum q / Zpos (Qden q) <=? int64_max)
  end.

Definition int64_value (v : option Q) : option Z :=
  option_map (fun q => Qnum q / Zpos (Qden q)) v.

(** The long record of input row [r] and day column [v]. *)
Definition long_record (str_to_num : string -> option Q) (df : DataFrame)
           (v : string) (r : list cell) : LongRecord :=
  let a := int64_value (to_numeric str_to_num (get_cell df "ANO" r)) in
  let e := int64_value (to_numeric str_to_num (get_cell df "MES" r)) in
  {| ESTACION := get_cell df "ESTACION" r;
     MAGNITUD := get_cell df "MAGNITUD" r;
     ANO := a;
     MES := e;
     DIA_STR := v;
     VALOR := to_numeric str_to_num (get_cell df v r);
     DIA := day_number v;
     FECHA := to_datetime a e (day_number v) |}.

(** Row [r] has a year and a month that [astype("Int64")] accepts. *)
Definition castable (str_to_num : string -> option Q) (df : DataFrame)
           (r : list cell) : bool :=
  is_integral (to_numeric str_to_num (get_cell df "ANO" r))
  && is_integral (to_numeric str_to_num (get_cell df "MES" r)).

Definition is_nil {A : Type} (l : list A) : bool :=
  match l with [] => true | _ => false end.

(** A filtered table with one row and one day column whose year is not a
    whole number (the CSV cell [2016.5]). *)
Definition filtrado_ano_2016_5 : DataFrame :=
  {| columns := ["ESTACION"; "MAGNITUD"; "ANO"; "MES"; "D01"];
     rows := [[Num 4; Num 1; Num (4033 # 2); Num 1; Num 12]] |}.

(** A filtered table with one row and one day column whose month is not a
    whole number (the CSV cell [2.5]). *)
Definition filtrado_mes_2_5 : DataFrame :=
  {| columns := ["ESTACION"; "MAGNITUD"; "ANO"; "MES"; "D30"];
     rows := [[Num 4; Num 1; Num 2021; Num (5 # 2); Str "n/d"]] |}.


(** Equality of two optional numbers, up to the representation of the
    fraction. *)
Definition opt_Qeq (a b : option Q) : Prop :=
  match a, b with
  | Some x, Some y => (x == y)%Q
  | None, None => True
  | _, _ => False
  end.

(** The record [r] belongs to the group of station [e] and pollutant [m]. *)
Definition in_estacion_magnitud (e m : cell) (r : LongRecord) : bool :=
  cell_eqb e (ESTACION r) && cell_eqb m (MAGNITUD r).

(** The non-missing values of that group. *)
Definition valores_de (e m : cell) (df : list LongRecord) : list Q :=
  notna_values (map VALOR (filter (in_estacion_magnitud e m) df)).

Definition registro (e m : Q) (d : Z) (v : option Q) : LongRecord :=
  {| ESTACION := Num e; MAGNITUD := Num m; ANO := Some 2016; MES := Some 1;
     DIA_STR := "D01"; VALOR := v; DIA := d; FECHA := Some (mkDate 2016 1 d) |}.


(** No two entries of the list are equal for [cmp]. *)
Inductive Distinct {A : Type} (cmp : A -> A -> comparison) : list A -> Prop :=
| Distinct_nil : Distinct cmp []
| Distinct_cons a l :
    (forall b, In b l -> cmp a b <> Eq) -> Distinct cmp l -> Distinct cmp (a :: l).

(** The summary row of the group of station and pollutant [k]. *)
Definition summary_of (k : cell * cell) (df : list LongRecord) : SummaryRow :=
  let vals := valores_de (fst k) (snd k) df in
  {| s_ESTACION := fst k; s_MAGNITUD := snd k;
     count := agg_count vals; promedio := agg_mean vals;
     desv_std_sq := agg_var vals;
     min_VALOR := agg_min vals; max_VALOR := agg_max vals |}.


(** The row filter of [medidas_mensuales_por_estacion]. *)
Definition coincide_estacion (estacion_codigo : Z) (ano : option Z) (r : LongRecord)
  : bool :=
  cell_eqb (ESTACION r) (Num (inject_Z estacion_codigo))
  && match ano with
     | Some a => opt_Z_eqb (ANO r) a
     | None => true
     end.

(** The paths read during a run, in the order of the reads. *)
Fixpoint reads_of (t : list event) : list string :=
  match t with
  | [] => []
  | EvRead p :: t' => p :: reads_of t'
  | _ :: t' => reads_of t'
  end.

(* ================================================================== *)
(** * Sample tables                                                    *)
(* ================================================================== *)

(** A raw table: unordered day columns among other columns. *)
Definition raw_ejemplo : DataFrame :=
  {| columns := ["D10"; "ESTACION"; "PROVINCIA"; "MAGNITUD"; "D02"; "ANO"; "MES";
                 "D01"; "V01"; "__ARCHIVO__"];
     rows := [[Num 10; Num 4; Num 28; Num 1; Num 2; Num 2016; Num 1;
               Num 1; Str "V"; Str "emisiones-2016.csv"]] |}.

(** A raw table without the columns ANO and MES. *)
Definition raw_sin_ano_mes : DataFrame :=
  {| columns := ["ESTACION"; "MAGNITUD"; "D01"];
     rows := [[Num 4; Num 1; Num 7]] |}.

(** A long table out of order, with one record without a date. *)
Definition largo_ejemplo : list LongRecord :=
  [ registro 5 1 2 (Some 8%Q);
    {| ESTACION := Num 4; MAGNITUD := Num 1; ANO := Some 2016; MES := Some 2;
       DIA_STR := "D30"; VALOR := Some 1%Q; DIA := 30; FECHA := None |};
    registro 4 1 3 (Some 6%Q);
    registro 4 1 1 None ].

(** A directory with two input files and one other file. *)
Definition listdir_ejemplo (d : string) : option (list string) :=
  if String.eqb d "datos"
  then Some ["notas.txt"; "emisiones-2017.csv"; "emisiones-2016.csv"]
  else if String.eqb d "vacio" then Some ["notas.txt"; "emisiones-2016.xlsx"]
  else None.

Definition path_join_ejemplo (d f : string) : string :=
  String.append d (String.append "/" f).

Definition read_csv_ejemplo (path : string) : option DataFrame :=
  if String.eqb path "datos/emisiones-2016.csv"
  then Some {| columns := ["ESTACION"; "MAGNITUD"; "ANO"; "MES"; "D01"; "D02"];
               rows := [[Num 101; Num 1; Num 2016; Num 2; Num 12; Str "n/d"]] |}
  else if String.eqb path "datos/emisiones-2017.csv"
  then Some {| columns := ["ESTACION"; "MAGNITUD"; "ANO"; "MES"; "D01"; "D02"];
               rows := [[Num 101; Num 1; Num 2017; Num 2; Num 9; Num 11]] |}
  else None.

(* ================================================================== *)
(** * Predicates used in the further properties                        *)
(* ================================================================== *)

(** Every row of the frame has one cell per column. *)
Definition rectangular (df : DataFrame) : Prop :=
  Forall (fun r => List.length r = List.length (columns df)) (rows df).

(** The frame read from [path], empty when the file cannot be read. *)
Definition archivo (read_csv : string -> option DataFrame) (path : string)
  : DataFrame :=
  match read_csv path with
  | Some df => df
  | None => {| columns := []; rows := [] |}
  end.

(* ================================================================== *)
(** * Catalogue of years and default selection in [main]               *)
(* ================================================================== *)

(** [sorted(set(int(a) for a in validas['ANO'].dropna().unique()))]; the
    values are integers, which [_pretty_int_list] leaves as they are. *)
Definition catalogo_anos (validas : list LongRecord) : list Z :=
  sorted_unique Z.compare
    (flat_map (fun r => match ANO r with Some a => [a] | None => [] end) validas).

(** [arg if arg is not None else (lista[0] if lista else None)]. *)
Definition ejemplo_por_defecto {A : Type} (arg : option A) (lista : list A)
  : option A :=
  match arg with
  | Some a => Some a
  | None => match lista with
            | x :: _ => Some x
            | [] => None
            end
  end.

(** [e_year] of [main]. *)
Definition ejemplo_ano (example_year : option Z) (validas : list LongRecord)
  : option Z :=
  ejemplo_por_defecto example_year (catalogo_anos validas).

(* ================================================================== *)
(** * Plots: [graficar_medias_mensuales_contaminante] and
      [graficar_mensual_por_estacion]                                  *)
(* ================================================================== *)






(* ================================================================== *)
(** * Printing helper: [_pretty_int_list]                              *)
(* ================================================================== *)

Section PrettyInt.

(** [int(s)] on a string: the integer it denotes, [None] when [int]
    raises ValueError. *)
Variable int_of_str : string -> option Z.

(** [int(v)]: a number is truncated towards zero, a string is parsed, a
    missing value raises. *)
Definition int_of_cell (v : cell) : result Z :=
  match v with
  | Num q => Ok (Z.quot (Qnum q) (Zpos (Qden q)))
  | Str s => match int_of_str s with
             | Some z => Ok z
             | None => Raise (ValueError s)
             end
  | NaN => Raise (ValueError "cannot convert float NaN to integer")
  end.

(** One turn of the loop: [try: out.append(int(v))] /
    [except Exception: out.append(v)]. *)
Definition pretty_append (out : list cell) (v : cell) : list cell :=
  match int_of_cell v with
  | Ok z => out ++ [Num (inject_Z z)]
  | Raise _ => out ++ [v]
  end.

Definition _pretty_int_list (values : list cell) : list cell :=
  fold_left pretty_append values [].

(** What the loop leaves in the place of [v]. *)
Definition pretty_cell (v : cell) : cell :=
  match int_of_cell v with
  | Ok z => Num (inject_Z z)
  | Raise _ => v
  end.

End PrettyInt.

(* ================================================================== *)
(** * More sample tables                                               *)
(* ================================================================== *)


(** A directory whose second input file cannot be read by
    [read_csv_ejemplo]. *)
Definition listdir_roto (d : string) : option (list string) :=
  Some ["emisiones-2018.csv"; "LEEME.txt"; "emisiones-2016.csv"].

(* ================================================================== *)
(** * Facts about comparisons and the stable sort                      *)
(* ================================================================== *)

Lemma lex_antisym {A B C : Type} (f : A -> B) (g : A -> C)
      (c1 : B -> B -> comparison) (c2 : C -> C -> comparison) :
  cmp_antisym c1 -> cmp_antisym c2 ->
  cmp_antisym (fun a b => lex (c1 (f a) (f b)) (c2 (g a) (g b))).
Proof.
  intros H1 H2 a b. rewrite (H1 (f a) (f b)), (H2 (g a) (g b)).
  destruct (c1 (f a) (f b)); reflexivity.
Qed.

Lemma lex_eq_trans {A B C : Type} (f : A -> B) (g : A -> C)
      (c1 : B -> B -> comparison) (c2 : C -> C -> comparison) :
  cmp_eq_trans c1 -> cmp_eq_trans c2 ->
  cmp_eq_trans (fun a b => lex (c1 (f a) (f b)) (c2 (g a) (g b))).
Proof.
  intros H1 H2 k a b Ha Hb.
  destruct (c1 (f k) (f a)) eqn:Ea; simpl in Ha; try discriminate.
  destruct (c1 (f k) (f b)) eqn:Eb; simpl in Hb; try discriminate.
  rewrite (H1 _ _ _ Ea Eb). simpl. eapply H2; eassumption.
Qed.

Lemma lex_Eq (c k : comparison) : lex c k = Eq <-> c = Eq /\ k = Eq.
Proof. destruct c; simpl; intuition congruence. Qed.

Lemma Z_compare_antisym : cmp_antisym Z.compare.
Proof. intros a b. apply Z.compare_antisym. Qed.

Lemma Z_compare_eq_trans : cmp_eq_trans Z.compare.
Proof.
  intros k a b Ha Hb. apply Z.compare_eq in Ha, Hb. subst. apply Z.compare_refl.
Qed.

Lemma string_compare_antisym : cmp_antisym String.compare.
Proof. intros a b. apply String.compare_antisym. Qed.

Lemma string_compare_refl (s : string) : String.compare s s = Eq.
Proof.
  pose proof (String.compare_antisym s s) as H.
  destruct (String.compare s s); simpl in H; congruence.
Qed.

Lemma string_compare_eq_trans : cmp_eq_trans String.compare.
Proof.
  intros k a b Ha Hb. apply String.compare_eq_iff in Ha, Hb. subst.
  apply string_compare_refl.
Qed.

Lemma cell_compare_antisym : cmp_antisym cell_compare.
Proof.
  intros [|p|s] [|q|t]; simpl; try reflexivity.
  - symmetry. apply Qcompare_antisym.
  - apply String.compare_antisym.
Qed.

Lemma cell_compare_eq_trans : cmp_eq_trans cell_compare.
Proof.
  intros [|k|k] [|p|s] [|q|t]; simpl; intros Ha Hb; try discriminate; try reflexivity.
  - apply Qeq_alt in Ha, Hb. apply Qeq_alt. rewrite <- Ha, <- Hb. reflexivity.
  - eapply string_compare_eq_trans; eassumption.
Qed.

Lemma date_compare_antisym : cmp_antisym date_compare.
Proof.
  unfold date_compare.
  apply (lex_antisym year (fun d => d) Z.compare
           (fun a b => lex (month a ?= month b) (day a ?= day b))).
  - exact Z_compare_antisym.
  - apply (lex_antisym month day Z.compare Z.compare);
      exact Z_compare_antisym.
Qed.

Lemma date_compare_eq_trans : cmp_eq_trans date_compare.
Proof.
  unfold date_compare.
  apply (lex_eq_trans year (fun d => d) Z.compare
           (fun a b => lex (month a ?= month b) (day a ?= day b))).
  - exact Z_compare_eq_trans.
  - apply (lex_eq_trans month day Z.compare Z.compare);
      exact Z_compare_eq_trans.
Qed.

Lemma fecha_compare_antisym : cmp_antisym fecha_compare.
Proof.
  intros [a|] [b|]; simpl; try reflexivity. apply date_compare_antisym.
Qed.

Lemma fecha_compare_eq_trans : cmp_eq_trans fecha_compare.
Proof.
  intros [k|] [a|] [b|]; simpl; intros Ha Hb; try discriminate; try reflexivity.
  eapply date_compare_eq_trans; eassumption.
Qed.

Lemma sort_key_compare_antisym : cmp_antisym sort_key_compare.
Proof.
  unfold sort_key_compare.
  apply (lex_antisym ESTACION (fun r => r) cell_compare
           (fun r1 r2 => lex (cell_compare (MAGNITUD r1) (MAGNITUD r2))
                             (fecha_compare (FECHA r1) (FECHA r2)))).
  - exact cell_compare_antisym.
  - apply (lex_antisym MAGNITUD FECHA cell_compare fecha_compare).
    + exact cell_compare_antisym.
    + exact fecha_compare_antisym.
Qed.

Lemma sort_key_compare_eq_trans : cmp_eq_trans sort_key_compare.
Proof.
  unfold sort_key_compare.
  apply (lex_eq_trans ESTACION (fun r => r) cell_compare
           (fun r1 r2 => lex (cell_compare (MAGNITUD r1) (MAGNITUD r2))
                             (fecha_compare (FECHA r1) (FECHA r2)))).
  - exact cell_compare_eq_trans.
  - apply (lex_eq_trans MAGNITUD FECHA cell_compare fecha_compare).
    + exact cell_compare_eq_trans.
    + exact fecha_compare_eq_trans.
Qed.

Section StableSortFacts.
Context {A : Type}.
Variable cmp : A -> A -> comparison.

Lemma insert_sorted_perm (a : A) (l : list A) :
  Permutation (insert_sorted cmp a l) (a :: l).
Proof.
  induction l as [|b l IH]; simpl.
  - apply Permutation_refl.
  - destruct (leb_of (cmp a b)).
    + apply Permutation_refl.
    + eapply perm_trans; [apply perm_skip, IH | apply perm_swap].
Qed.

Lemma sort_stable_perm (l : list A) : Permutation (sort_stable cmp l) l.
Proof.
  induction l as [|a l IH]; simpl.
  - apply perm_nil.
  - eapply perm_trans; [apply insert_sorted_perm | apply perm_skip, IH].
Qed.

Lemma sort_stable_length (l : list A) :
  List.length (sort_stable cmp l) = List.length l.
Proof. apply Permutation_length, sort_stable_perm. Qed.

Lemma sort_stable_In (l : list A) (x : A) : In x (sort_stable cmp l) <-> In x l.
Proof.
  split; apply Permutation_in;
    [apply sort_stable_perm | apply Permutation_sym, sort_stable_perm].
Qed.

Hypothesis cmp_anti : cmp_antisym cmp.

Lemma not_le_ge (a b : A) : leb_of (cmp a b) = false -> le_of cmp b a.
Proof.
  unfold le_of. rewrite (cmp_anti a b).
  destruct (cmp a b); simpl; congruence.
Qed.

Lemma insert_sorted_HdRel (a b : A) (l : list A) :
  le_of cmp b a -> HdRel (le_of cmp) b l -> HdRel (le_of cmp) b (insert_sorted cmp a l).
Proof.
  intros Hba Hl. destruct l as [|c l]; simpl.
  - constructor. exact Hba.
  - destruct (leb_of (cmp a c)); constructor.
    + exact Hba.
    + inversion Hl; assumption.
Qed.

Lemma insert_sorted_Sorted (a : A) (l : list A) :
  Sorted (le_of cmp) l -> Sorted (le_of cmp) (insert_sorted cmp a l).
Proof.
  induction 1 as [|b l Hs IH Hhd]; simpl.
  - repeat constructor.
  - destruct (leb_of (cmp a b)) eqn:E.
    + constructor.
      * constructor; assumption.
      * constructor. unfold le_of. destruct (cmp a b); simpl in E; congruence.
    + constructor.
      * exact IH.
      * apply insert_sorted_HdRel; [apply not_le_ge; exact E | exact Hhd].
Qed.

Lemma sort_stable_Sorted (l : list A) : Sorted (le_of cmp) (sort_stable cmp l).
Proof.
  induction l as [|a l IH]; simpl.
  - constructor.
  - apply insert_sorted_Sorted, IH.
Qed.

Hypothesis cmp_trans : cmp_eq_trans cmp.

Lemma insert_sorted_filter (k a : A) (l : list A) :
  filter (fun x => eqb_of (cmp k x)) (insert_sorted cmp a l)
  = filter (fun x => eqb_of (cmp k x)) (a :: l).
Proof.
  induction l as [|b l IH].
  - reflexivity.
  - cbn [insert_sorted]. destruct (leb_of (cmp a b)) eqn:E.
    + reflexivity.
    + cbn [filter] in *. rewrite IH.
      destruct (cmp k a) eqn:Ea; destruct (cmp k b) eqn:Eb; simpl; try reflexivity.
      rewrite (cmp_trans k a b Ea Eb) in E. discriminate.
Qed.

(** Stability: the records of one key keep their relative order. *)
Lemma sort_stable_filter (k : A) (l : list A) :
  filter (fun x => eqb_of (cmp k x)) (sort_stable cmp l)
  = filter (fun x => eqb_of (cmp k x)) l.
Proof.
  induction l as [|a l IH].
  - reflexivity.
  - cbn [sort_stable]. rewrite insert_sorted_filter. cbn [filter].
    rewrite IH. reflexivity.
Qed.

End StableSortFacts.

(** Consecutive elements of a sorted list are related. *)
Lemma Sorted_consecutive {A : Type} (R : A -> A -> Prop) (l : list A) :
  Sorted R l ->
  forall i x y, nth_error l i = Some x -> nth_error l (S i) = Some y -> R x y.
Proof.
  induction 1 as [|a l Hs IH Hhd]; intros i x y Hx Hy.
  - destruct i; discriminate.
  - destruct i as [|i].
    + simpl in Hx, Hy. injection Hx as <-.
      destruct l as [|b l]; [discriminate|].
      simpl in Hy. injection Hy as <-. inversion Hhd; assumption.
    + simpl in Hx. eapply IH; [exact Hx | exact Hy].
Qed.

(* ================================================================== *)
(** * Cleaner / sorter                                                 *)
(* ================================================================== *)

Lemma sort_key_le_iff (r1 r2 : LongRecord) :
  le_of sort_key_compare r1 r2 <-> sort_key_le r1 r2.
Proof.
  unfold le_of, sort_key_le, sort_key_compare, cell_lt, cell_same, fecha_le.
  destruct (cell_compare (ESTACION r1) (ESTACION r2));
    destruct (cell_compare (MAGNITUD r1) (MAGNITUD r2));
    simpl; intuition congruence.
Qed.

Lemma same_sort_key_iff (k r : LongRecord) :
  same_sort_key k r = true <->
  cell_same (ESTACION k) (ESTACION r)
  /\ cell_same (MAGNITUD k) (MAGNITUD r)
  /\ fecha_same (FECHA k) (FECHA r).
Proof.
  unfold same_sort_key, sort_key_compare, cell_same, fecha_same.
  destruct (cell_compare (ESTACION k) (ESTACION r));
    destruct (cell_compare (MAGNITUD k) (MAGNITUD r));
    destruct (fecha_compare (FECHA k) (FECHA r));
    simpl; intuition congruence.
Qed.

Lemma Sorted_impl {A : Type} (R S : A -> A -> Prop) (l : list A) :
  (forall a b, R a b -> S a b) -> Sorted R l -> Sorted S l.
Proof.
  intros HRS. induction 1 as [|a l Hs IH Hhd]; constructor.
  - exact IH.
  - destruct Hhd; constructor. apply HRS. assumption.
Qed.

Lemma limpiar_y_ordenar_Sorted (long_df : list LongRecord) :
  Sorted sort_key_le (limpiar_y_ordenar long_df).
Proof.
  unfold limpiar_y_ordenar.
  apply Sorted_impl with (R := le_of sort_key_compare).
  - intros a b. apply sort_key_le_iff.
  - apply sort_stable_Sorted. exact sort_key_compare_antisym.
Qed.

Lemma limpiar_y_ordenar_In (long_df : list LongRecord) (r : LongRecord) :
  In r (limpiar_y_ordenar long_df) <-> In r long_df /\ FECHA r <> None.
Proof.
  unfold limpiar_y_ordenar. rewrite sort_stable_In, filter_In.
  unfold notna_fecha. destruct (FECHA r); intuition congruence.
Qed.

(** C1. [limpiar_y_ordenar] orders the records that have a date by
    ESTACION, then MAGNITUD, then FECHA, all ascending; it keeps exactly
    those records; and the sort is stable: for every key, the records that
    carry it come out in the order they had in the input. *)
Theorem limpiar_y_ordenar_sorted_stable (long_df : list LongRecord) :
  Sorted sort_key_le (limpiar_y_ordenar long_df)
  /\ Permutation (limpiar_y_ordenar long_df) (filter notna_fecha long_df)
  /\ (forall k : LongRecord,
        filter (same_sort_key k) (limpiar_y_ordenar long_df)
        = filter (same_sort_key k) (filter notna_fecha long_df)).
Proof.
  split; [apply limpiar_y_ordenar_Sorted|]. split.
  - apply sort_stable_perm.
  - intros k. unfold limpiar_y_ordenar, same_sort_key.
    apply sort_stable_filter. exact sort_key_compare_eq_trans.
Qed.

(** C4. Every record of the table built by [limpiar_y_ordenar] has a
    date, the table has at most as many rows as its input, and each record
    is at or before the next one in (ESTACION, MAGNITUD, FECHA) order. *)
Theorem limpiar_y_ordenar_valid_record (long_df : list LongRecord) :
  (forall r, In r (limpiar_y_ordenar long_df) -> FECHA r <> None)
  /\ (List.length (limpiar_y_ordenar long_df) <= List.length long_df)%nat
  /\ (forall i r1 r2,
        nth_error (limpiar_y_ordenar long_df) i = Some r1 ->
        nth_error (limpiar_y_ordenar long_df) (S i) = Some r2 ->
        sort_key_le r1 r2).
Proof.
  split; [|split].
  - intros r Hr. apply limpiar_y_ordenar_In in Hr. tauto.
  - unfold limpiar_y_ordenar. rewrite sort_stable_length. apply filter_length_le.
  - apply Sorted_consecutive, limpiar_y_ordenar_Sorted.
Qed.

(* ================================================================== *)
(** * Schema filter                                                    *)
(* ================================================================== *)

Lemma mapM_total {A B : Type} (f : A -> result B) (g : A -> B) (l : list A) :
  (forall x, In x l -> f x = Ok (g x)) -> mapM f l = Ok (map g l).
Proof.
  induction l as [|a l IH]; intros H; simpl.
  - reflexivity.
  - rewrite (H a (or_introl eq_refl)). simpl.
    rewrite IH by (intros x Hx; apply H; right; exact Hx).
    reflexivity.
Qed.

Lemma is_digit_val (c : ascii) : is_digit c = true -> 0 <= digit_val c <= 9.
Proof.
  unfold is_digit, digit_val. rewrite andb_true_iff.
  intros [H1 H2]. apply Nat.leb_le in H1, H2. lia.
Qed.

Lemma is_day_col_inv (c : string) :
  is_day_col c = true ->
  exists a b, c = String "D" (String a (String b EmptyString))
              /\ is_digit a = true /\ is_digit b = true.
Proof.
  intros H.
  destruct c as [|d [|a [|b [|x t]]]]; simpl in H;
    try discriminate H;
    destruct d as [[] [] [] [] [] [] [] []]; try discriminate H.
  apply andb_true_iff in H. exists a, b. tauto.
Qed.

Lemma py_int_day_col (c : string) :
  is_day_col c = true -> py_int (tail_str c) = Ok (day_number c).
Proof.
  intros H. destruct (is_day_col_inv c H) as [a [b [-> [Ha Hb]]]].
  unfold py_int. simpl. rewrite Ha, Hb. reflexivity.
Qed.

Lemma day_number_range (c : string) :
  is_day_col c = true -> 0 <= day_number c <= 99.
Proof.
  intros H. destruct (is_day_col_inv c H) as [a [b [-> [Ha Hb]]]].
  apply is_digit_val in Ha, Hb. cbn [day_number]. lia.
Qed.

Lemma insert_sorted_map_snd {A : Type} (key : A -> Z) (a : A) (l : list A) :
  map snd (insert_sorted (fun x y : Z * A => fst x ?= fst y) (key a, a)
                         (map (fun x => (key x, x)) l))
  = insert_sorted (fun x y => key x ?= key y) a l.
Proof.
  induction l as [|b l IH]; simpl.
  - reflexivity.
  - destruct (leb_of (key a ?= key b)); simpl.
    + rewrite map_map. simpl. rewrite map_id. reflexivity.
    + rewrite IH. reflexivity.
Qed.

Lemma sort_stable_decorated {A : Type} (key : A -> Z) (l : list A) :
  sort_stable (fun x y : Z * A => fst x ?= fst y) (map (fun x => (key x, x)) l)
  = map (fun x => (key x, x)) (sorted_by_key key l).
Proof.
  unfold sorted_by_key.
  induction l as [|a l IH]; simpl.
  - reflexivity.
  - rewrite IH. clear IH.
    induction (sort_stable (fun a0 b : A => key a0 ?= key b) l) as [|b s IHs]; simpl.
    + reflexivity.
    + destruct (leb_of (key a ?= key b)); simpl.
      * reflexivity.
      * rewrite IHs. reflexivity.
Qed.

(** On matched labels the key function never raises, and the labels are
    sorted by their day number. *)
Lemma sort_day_cols_ok (cols : list string) :
  sort_day_cols (filter is_day_col cols)
  = Ok (sorted_by_key day_number (filter is_day_col cols)).
Proof.
  unfold sort_day_cols.
  rewrite (mapM_total _ (fun x => (day_number x, x))).
  - simpl. unfold sorted_by_key at 1.
    rewrite sort_stable_decorated, map_map. simpl. rewrite map_id. reflexivity.
  - intros x Hx. apply filter_In in Hx. destruct Hx as [_ Hx].
    rewrite (py_int_day_col x Hx). reflexivity.
Qed.

Lemma has_col_In (df : DataFrame) (c : string) :
  has_col df c = true <-> In c (columns df).
Proof.
  unfold has_col. rewrite existsb_exists. split.
  - intros [x [Hx E]]. apply String.eqb_eq in E. subst. exact Hx.
  - intros H. exists c. split; [exact H | apply String.eqb_refl].
Qed.

Lemma filter_absent_nil (df : DataFrame) (labels : list string) :
  filter (fun c => negb (has_col df c)) labels = []
  <-> forall c, In c labels -> In c (columns df).
Proof.
  induction labels as [|c labels IH]; simpl.
  - intuition.
  - destruct (has_col df c) eqn:E; simpl.
    + apply has_col_In in E. rewrite IH. split.
      * intros H x [<-|Hx]; auto.
      * intros H x Hx. apply H. right. exact Hx.
    + split; [discriminate|]. intros H.
      assert (In c (columns df)) as Hc by (apply H; left; reflexivity).
      apply has_col_In in Hc. congruence.
Qed.

Lemma filter_absent_In (df : DataFrame) (labels : list string) (c : string) :
  In c (filter (fun c => negb (has_col df c)) labels)
  <-> In c labels /\ ~ In c (columns df).
Proof.
  rewrite filter_In, negb_true_iff, <- has_col_In.
  destruct (has_col df c); intuition congruence.
Qed.

Lemma positions_from_absent (k : nat) (c : string) (cols : list string) :
  ~ In c cols -> positions_from k c cols = [].
Proof.
  revert k. induction cols as [|x cols IH]; intros k H; simpl.
  - reflexivity.
  - destruct (String.eqb_spec c x) as [->|_].
    + exfalso. apply H. left. reflexivity.
    + apply IH. intros Hc. apply H. right. exact Hc.
Qed.

Lemma positions_from_unique (k : nat) (c : string) (cols : list string) :
  NoDup cols -> In c cols ->
  exists i, positions_from k c cols = [(k + i)%nat] /\ nth i cols "" = c.
Proof.
  revert k. induction cols as [|x cols IH]; intros k Hnd Hin.
  - destruct Hin.
  - inversion Hnd as [|? ? Hx Hnd']; subst. simpl.
    destruct (String.eqb_spec c x) as [->|Hne].
    + exists 0%nat. rewrite (positions_from_absent _ _ _ Hx).
      rewrite Nat.add_0_r. split; reflexivity.
    + destruct Hin as [->|Hin]; [congruence|].
      destruct (IH (S k) Hnd' Hin) as [i [Hp Hn]].
      exists (S i). rewrite Hp. split.
      * f_equal. lia.
      * exact Hn.
Qed.

(** On a frame with distinct labels, [df[labels]] has exactly the
    requested labels, each with the cells it had. *)
Lemma getitem_cols_unique (labels : list string) (df : DataFrame) :
  NoDup (columns df) ->
  (forall c, In c labels -> In c (columns df)) ->
  getitem_cols labels df
  = Ok {| columns := labels;
          rows := map (fun r => map (fun c => get_cell df c r) labels) (rows df) |}.
Proof.
  intros Hnd Hin. unfold getitem_cols.
  rewrite (proj2 (filter_absent_nil df labels) Hin).
  assert (forall (B : Type) (g : nat -> B),
             map g (flat_map (fun c => positions_from 0 c (columns df)) labels)
             = map (fun c => match positions_from 0 c (columns df) with
                             | i :: _ => g i
                             | [] => g 0%nat
                             end) labels) as Hmap.
  { intros B g. induction labels as [|c labels IH]; simpl.
    - reflexivity.
    - rewrite map_app, IH by (intros x Hx; apply Hin; right; exact Hx).
      destruct (positions_from_unique 0 c (columns df) Hnd
                  (Hin c (or_introl eq_refl))) as [i [Hp _]].
      rewrite Hp. reflexivity. }
  f_equal. f_equal.
  - rewrite Hmap. rewrite <- (map_id labels) at 2.
    apply map_ext_in. intros c Hc.
    destruct (positions_from_unique 0 c (columns df) Hnd (Hin c Hc)) as [i [Hp Hn]].
    rewrite Hp. exact Hn.
  - apply map_ext. intros r. rewrite Hmap.
    apply map_ext_in. intros c Hc. unfold get_cell.
    destruct (positions_from_unique 0 c (columns df) Hnd (Hin c Hc)) as [i [Hp Hn]].
    rewrite Hp. reflexivity.
Qed.

Lemma getitem_cols_present (labels : list string) (df : DataFrame) :
  (forall c, In c labels -> In c (columns df)) ->
  exists out, getitem_cols labels df = Ok out.
Proof.
  intros Hin. unfold getitem_cols.
  rewrite (proj2 (filter_absent_nil df labels) Hin). eexists. reflexivity.
Qed.

Lemma sorted_day_cols_In (cols : list string) (c : string) :
  In c (sorted_by_key day_number (filter is_day_col cols))
  <-> In c cols /\ is_day_col c = true.
Proof.
  unfold sorted_by_key. rewrite sort_stable_In, filter_In. reflexivity.
Qed.

Lemma Z_le_of (a b : Z) : le_of Z.compare a b <-> a <= b.
Proof. unfold le_of, Z.le. reflexivity. Qed.

Lemma sorted_by_key_Sorted {A : Type} (key : A -> Z) (l : list A) :
  Sorted (fun a b => key a <= key b) (sorted_by_key key l).
Proof.
  unfold sorted_by_key.
  apply Sorted_impl with (R := le_of (fun a b => key a ?= key b)).
  - intros a b H. exact H.
  - apply sort_stable_Sorted. intros a b. apply Z.compare_antisym.
Qed.

(** C6. On a raw table with distinct labels that has the four identifier
    columns, [filtrar_columnas] returns a table whose columns are the four
    identifiers followed by the day columns of the input in ascending order
    of their two-digit number, each with the cells it had; no other column
    is kept.  A table whose day columns are [D10, D02, D01] comes out with
    [D01, D02, D10]. *)
Theorem filtrar_columnas_columns (raw : DataFrame) :
  NoDup (columns raw) ->
  (forall c, In c base_cols -> In c (columns raw)) ->
  let day_cols := sorted_by_key day_number (filter is_day_col (columns raw)) in
  filtrar_columnas raw
  = Ok {| columns := base_cols ++ day_cols;
          rows := map (fun r => map (fun c => get_cell raw c r) (base_cols ++ day_cols))
                      (rows raw) |}
  /\ Sorted (fun a b => day_number a <= day_number b) day_cols
  /\ Permutation day_cols (filter is_day_col (columns raw))
  /\ (forall c, In c (base_cols ++ day_cols) ->
                In c base_cols \/ (In c (columns raw) /\ is_day_col c = true))
  /\ (forall rws, exists rws',
        filtrar_columnas {| columns := ["D10"; "D02"; "D01"] ++ base_cols;
                            rows := rws |}
        = Ok {| columns := base_cols ++ ["D01"; "D02"; "D10"]; rows := rws' |}).
Proof.
  intros Hnd Hbase day_cols. split; [|split; [|split; [|split]]].
  - unfold filtrar_columnas. rewrite sort_day_cols_ok. cbn [bind].
    rewrite (proj2 (filter_absent_nil raw base_cols) Hbase).
    apply getitem_cols_unique; [exact Hnd|].
    intros c Hc. apply in_app_or in Hc. destruct Hc as [Hc|Hc].
    + apply Hbase, Hc.
    + apply sorted_day_cols_In in Hc. tauto.
  - apply sorted_by_key_Sorted.
  - apply sort_stable_perm.
  - intros c Hc. apply in_app_or in Hc. destruct Hc as [Hc|Hc].
    + left. exact Hc.
    + right. apply sorted_day_cols_In. exact Hc.
  - intros rws. eexists. reflexivity.
Qed.

(** C7. [filtrar_columnas] raises the KeyError "Faltan columnas base"
    exactly when one of ESTACION, MAGNITUD, ANO, MES is not a column of the
    input; the error lists the absent identifiers, all of them and nothing
    else; no table is returned then, and a table is returned otherwise. *)
Theorem filtrar_columnas_missing (raw : DataFrame) :
  ((exists c, In c base_cols /\ ~ In c (columns raw))
   <-> exists missing, filtrar_columnas raw = Raise (KeyError missing))
  /\ (forall missing,
        filtrar_columnas raw = Raise (KeyError missing) ->
        missing <> []
        /\ forall c, In c missing <-> In c base_cols /\ ~ In c (columns raw))
  /\ ((exists c, In c base_cols /\ ~ In c (columns raw)) ->
      forall out, filtrar_columnas raw <> Ok out)
  /\ ((forall c, In c base_cols -> In c (columns raw)) ->
      exists out, filtrar_columnas raw = Ok out).
Proof.
  assert (forall c, In c (base_cols ++
                          sorted_by_key day_number (filter is_day_col (columns raw))) ->
                    (forall b, In b base_cols -> In b (columns raw)) ->
                    In c (columns raw)) as Hlabels.
  { intros c Hc Hb. apply in_app_or in Hc. destruct Hc as [Hc|Hc].
    - apply Hb, Hc.
    - apply sorted_day_cols_In in Hc. tauto. }
  assert (filtrar_columnas raw
          = match filter (fun c => negb (has_col raw c)) base_cols with
            | [] => getitem_cols
                      (base_cols ++ sorted_by_key day_number
                                      (filter is_day_col (columns raw))) raw
            | m :: ms => Raise (KeyError (m :: ms))
            end) as Hdef.
  { unfold filtrar_columnas. rewrite sort_day_cols_ok. cbn [bind].
    destruct (filter (fun c => negb (has_col raw c)) base_cols); reflexivity. }
  rewrite Hdef.
  destruct (filter (fun c => negb (has_col raw c)) base_cols) as [|m ms] eqn:Hm.
  - pose proof (proj1 (filter_absent_nil raw base_cols) Hm) as Hall.
    destruct (getitem_cols_present _ raw (fun c Hc => Hlabels c Hc Hall)) as [out Hout].
    rewrite Hout.
    split; [split|split; [|split]].
    + intros [c [Hc Hn]]. exfalso. apply Hn, Hall, Hc.
    + intros [missing H]. discriminate H.
    + intros missing H. discriminate H.
    + intros [c [Hc Hn]]. exfalso. apply Hn, Hall, Hc.
    + intros _. exists out. reflexivity.
  - assert (forall c, In c (m :: ms) <-> In c base_cols /\ ~ In c (columns raw)) as Hin.
    { intros c. rewrite <- Hm. apply filter_absent_In. }
    split; [split|split; [|split]].
    + intros _. exists (m :: ms). reflexivity.
    + intros _. exists m. apply Hin. left. reflexivity.
    + intros missing H. injection H as <-. split; [discriminate | exact Hin].
    + intros _ out. discriminate.
    + intros Hall. exfalso.
      assert (In m (m :: ms)) as Hmm by (left; reflexivity).
      apply Hin in Hmm. destruct Hmm as [Hb Hn]. apply Hn, Hall, Hb.
Qed.

(* ================================================================== *)
(** * Reshape engine and date synthesis                                *)
(* ================================================================== *)

Lemma astype_Int64_spec (v : option Q) :
  astype_Int64 v = if is_integral v then Ok (int64_value v) else Raise TypeError.
Proof. destruct v as [q|]; reflexivity. Qed.

Lemma mapM_astype {A : Type} (sel : A -> option Q) (l : list A) :
  mapM (fun x => a <- astype_Int64 (sel x) ;; Ok (x, a)) l
  = if forallb (fun x => is_integral (sel x)) l
    then Ok (map (fun x => (x, int64_value (sel x))) l)
    else Raise TypeError.
Proof.
  induction l as [|x l IH]; simpl.
  - reflexivity.
  - rewrite astype_Int64_spec. destruct (is_integral (sel x)); simpl.
    + rewrite IH. destruct (forallb _ l); reflexivity.
    + reflexivity.
Qed.

Lemma forallb_flat_map {A B : Type} (f : B -> bool) (g : A -> list B) (l : list A) :
  forallb f (flat_map g l) = forallb (fun x => forallb f (g x)) l.
Proof.
  induction l as [|a l IH]; simpl.
  - reflexivity.
  - rewrite forallb_app, IH. reflexivity.
Qed.

Lemma forallb_map {A B : Type} (f : B -> bool) (g : A -> B) (l : list A) :
  forallb f (map g l) = forallb (fun x => f (g x)) l.
Proof.
  induction l as [|a l IH]; simpl; [reflexivity | rewrite IH; reflexivity].
Qed.

Lemma forallb_pointwise {A : Type} (f g : A -> bool) (l : list A) :
  (forall x, f x = g x) -> forallb f l = forallb g l.
Proof.
  intros H. induction l as [|a l IH]; simpl; [reflexivity | rewrite H, IH; reflexivity].
Qed.

Lemma forallb_const {A : Type} (b : bool) (l : list A) :
  forallb (fun _ => b) l = is_nil l || b.
Proof.
  induction l as [|a l IH]; simpl.
  - reflexivity.
  - rewrite IH. destruct b, (is_nil l); reflexivity.
Qed.

Lemma flat_map_map {A B C : Type} (h : B -> C) (g : A -> list B) (l : list A) :
  map h (flat_map g l) = flat_map (fun x => map h (g x)) l.
Proof.
  induction l as [|a l IH]; simpl.
  - reflexivity.
  - rewrite map_app, IH. reflexivity.
Qed.

(** What [a_formato_largo] returns on a table that has the identifier
    columns: the expansion of every row along every day column, unless
    some year or month cannot be cast, which raises TypeError. *)
Lemma a_formato_largo_spec (p : string -> option Q) (df : DataFrame) :
  (forall c, In c base_cols -> In c (columns df)) ->
  a_formato_largo p df
  = if is_nil (filter is_day_col (columns df)) || forallb (castable p df) (rows df)
    then Ok (flat_map (fun v => map (long_record p df v) (rows df))
                      (filter is_day_col (columns df)))
    else Raise TypeError.
Proof.
  intros Hbase. unfold a_formato_largo, melt.
  set (days := filter is_day_col (columns df)).
  assert (filter (fun c => negb (has_col df c)) (base_cols ++ days) = []) as ->.
  { apply filter_absent_nil. intros c Hc. apply in_app_or in Hc.
    destruct Hc as [Hc|Hc]; [apply Hbase, Hc|].
    unfold days in Hc. apply filter_In in Hc. tauto. }
  cbn [bind].
  set (long := flat_map _ days).
  rewrite (mapM_total _ (fun m => (m, day_number (variable m)))).
  2:{ intros m Hm. unfold long in Hm. apply in_flat_map in Hm.
      destruct Hm as [v [Hv Hm]]. apply in_map_iff in Hm.
      destruct Hm as [r [<- _]]. cbn [variable].
      unfold days in Hv. apply filter_In in Hv.
      rewrite (py_int_day_col v (proj2 Hv)). reflexivity. }
  cbn [bind].
  rewrite (mapM_astype (fun md : MeltRow * Z => to_numeric p (nth 2 (ids (fst md)) NaN))).
  rewrite forallb_map. cbn [fst].
  unfold long at 1. rewrite forallb_flat_map.
  rewrite (forallb_pointwise _ (fun _ : string =>
             forallb (fun r => is_integral (to_numeric p (get_cell df "ANO" r))) (rows df)))
    by (intros v; rewrite forallb_map; reflexivity).
  rewrite forallb_const. fold days.
  destruct (is_nil days) eqn:Hnil.
  - destruct days; [|discriminate]. reflexivity.
  - cbn [orb].
    destruct (forallb (fun r => is_integral (to_numeric p (get_cell df "ANO" r))) (rows df))
      eqn:HA.
    + cbn [bind].
      rewrite (mapM_astype (fun mda : MeltRow * Z * option Z =>
                              to_numeric p (nth 3 (ids (fst (fst mda))) NaN))).
      rewrite !forallb_map. cbn [fst].
      unfold long at 1. rewrite forallb_flat_map.
      rewrite (forallb_pointwise _ (fun _ : string =>
                 forallb (fun r => is_integral (to_numeric p (get_cell df "MES" r)))
                         (rows df)))
        by (intros v; rewrite forallb_map; reflexivity).
      rewrite forallb_const. fold days. rewrite Hnil. cbn [orb].
      assert (forallb (castable p df) (rows df)
              = forallb (fun r => is_integral (to_numeric p (get_cell df "MES" r)))
                        (rows df)) as ->.
      { unfold castable. clear - HA. induction (rows df) as [|r l IH]; simpl in *.
        - reflexivity.
        - apply andb_true_iff in HA. destruct HA as [Hr Hl].
          rewrite Hr, (IH Hl). reflexivity. }
      destruct (forallb (fun r => is_integral (to_numeric p (get_cell df "MES" r)))
                        (rows df)); [|reflexivity].
      cbn [bind]. f_equal. rewrite !map_map. unfold long.
      rewrite flat_map_map. apply flat_map_ext. intros v.
      rewrite map_map. reflexivity.
    + cbn [bind].
      assert (forallb (castable p df) (rows df) = false) as ->; [|reflexivity].
      unfold castable. clear - HA. induction (rows df) as [|r l IH]; simpl in *.
      * discriminate.
      * destruct (is_integral (to_numeric p (get_cell df "ANO" r))); simpl in *.
        -- rewrite (IH HA). apply andb_false_r.
        -- reflexivity.
Qed.

(** When [a_formato_largo] returns, it returns one record per input row
    and day column. *)
Lemma a_formato_largo_count (p : string -> option Q) (df : DataFrame)
      (out : list LongRecord) :
  (forall c, In c base_cols -> In c (columns df)) ->
  a_formato_largo p df = Ok out ->
  List.length out
  = (List.length (rows df) * List.length (filter is_day_col (columns df)))%nat.
Proof.
  intros Hbase H. rewrite (a_formato_largo_spec p df Hbase) in H.
  destruct (is_nil _ || forallb _ _); [|discriminate].
  injection H as <-.
  induction (filter is_day_col (columns df)) as [|v l IH]; simpl.
  - lia.
  - rewrite length_app, length_map, IH. lia.
Qed.

(** It returns whenever every year and month is missing, not a number,
    or a whole number. *)
Lemma a_formato_largo_total (p : string -> option Q) (df : DataFrame) :
  (forall c, In c base_cols -> In c (columns df)) ->
  (forall r, In r (rows df) -> castable p df r = true) ->
  a_formato_largo p df
  = Ok (flat_map (fun v => map (long_record p df v) (rows df))
                 (filter is_day_col (columns df))).
Proof.
  intros Hbase Hc. rewrite (a_formato_largo_spec p df Hbase).
  rewrite (proj2 (forallb_forall _ _) Hc), orb_true_r. reflexivity.
Qed.


(** A cell that is empty or does not parse as a number gives a missing
    VALOR. *)
Lemma to_numeric_missing (p : string -> option Q) (c : cell) :
  c = NaN \/ (exists s, c = Str s /\ p s = None) -> to_numeric p c = None.
Proof. intros [->|[s [-> Hs]]]; [reflexivity | exact Hs]. Qed.



Lemma to_datetime_invalid (y m : option Z) (d : Z) :
  y = None \/ m = None
  \/ (forall y' m', y = Some y' -> m = Some m' -> is_calendar_date y' m' d = false) ->
  to_datetime y m d = None.
Proof.
  unfold to_datetime. destruct y as [y|]; [|reflexivity].
  destruct m as [m|]; [|reflexivity].
  intros [H|[H|H]]; try discriminate.
  rewrite (H y m eq_refl eq_refl). reflexivity.
Qed.


Example to_datetime_2021_02_30 : to_datetime (Some 2021) (Some 2) 30 = None.
Proof. reflexivity. Qed.

Example to_datetime_2020_02_29 :
  to_datetime (Some 2020) (Some 2) 29 = Some (mkDate 2020 2 29).
Proof. reflexivity. Qed.

Example to_datetime_month_13 : to_datetime (Some 2020) (Some 13) 1 = None.
Proof. reflexivity. Qed.

(** C2. On the filtered table with one row, one day column and the year
    2016.5, [a_formato_largo] raises TypeError at the cast of ANO to Int64
    and returns no record, where one record (1 row x 1 day column) is due. *)
Theorem a_formato_largo_fractional_year_raises :
  a_formato_largo parse_decimal filtrado_ano_2016_5 = Raise TypeError
  /\ (List.length (rows filtrado_ano_2016_5)
      * List.length (filter is_day_col (columns filtrado_ano_2016_5)) = 1)%nat.
Proof. split; reflexivity. Qed.

(** C3. On the filtered table whose only row has year 2021, month 2.5 and
    the day column D30, [a_formato_largo] raises TypeError at the cast of
    MES to Int64 instead of giving the record a missing date. *)
Theorem a_formato_largo_fractional_month_raises :
  a_formato_largo parse_decimal filtrado_mes_2_5 = Raise TypeError.
Proof. reflexivity. Qed.




(* ================================================================== *)
(** * Aggregation engine                                               *)
(* ================================================================== *)

Section DedupFacts.
Context {A : Type}.
Variable cmp : A -> A -> comparison.
Hypothesis cmp_anti : cmp_antisym cmp.
Hypothesis cmp_trans : cmp_eq_trans cmp.

Lemma cmp_refl (a : A) : cmp a a = Eq.
Proof.
  pose proof (cmp_anti a a) as H. destruct (cmp a a); simpl in H; congruence.
Qed.

Lemma cmp_eq_sym (a b : A) : cmp a b = Eq -> cmp b a = Eq.
Proof. intros H. rewrite (cmp_anti a b), H. reflexivity. Qed.

Lemma dedup_In (l : list A) (x : A) : In x (dedup cmp l) -> In x l.
Proof.
  induction l as [|a l IH]; simpl.
  - tauto.
  - intros [->|H]; [left; reflexivity|].
    apply filter_In in H. right. apply IH. tauto.
Qed.

Lemma dedup_covers (l : list A) (x : A) :
  In x l -> exists y, In y (dedup cmp l) /\ cmp y x = Eq.
Proof.
  induction l as [|a l IH]; simpl.
  - tauto.
  - intros [->|H].
    + exists x. split; [left; reflexivity | apply cmp_refl].
    + destruct (IH H) as [y [Hy Hyx]].
      destruct (cmp a y) eqn:E.
      * exists a. split; [left; reflexivity|].
        apply (cmp_trans y a x); [apply cmp_eq_sym; exact E | exact Hyx].
      * exists y. split; [|exact Hyx]. right. apply filter_In.
        rewrite E. split; [exact Hy | reflexivity].
      * exists y. split; [|exact Hyx]. right. apply filter_In.
        rewrite E. split; [exact Hy | reflexivity].
Qed.

Lemma Distinct_filter (f : A -> bool) (l : list A) :
  Distinct cmp l -> Distinct cmp (filter f l).
Proof.
  induction 1 as [|a l Ha Hl IH]; simpl.
  - constructor.
  - destruct (f a); [|exact IH].
    constructor; [|exact IH].
    intros b Hb. apply filter_In in Hb. apply Ha. tauto.
Qed.

Lemma dedup_Distinct (l : list A) : Distinct cmp (dedup cmp l).
Proof.
  induction l as [|a l IH]; simpl.
  - constructor.
  - constructor.
    + intros b Hb. apply filter_In in Hb. destruct Hb as [_ Hb].
      destruct (cmp a b); simpl in Hb; congruence.
    + apply Distinct_filter, IH.
Qed.

Lemma insert_sorted_Distinct (a : A) (l : list A) :
  (forall b, In b l -> cmp a b <> Eq) -> Distinct cmp l ->
  Distinct cmp (insert_sorted cmp a l).
Proof.
  intros Ha Hl. induction Hl as [|b l Hb Hl IH]; simpl.
  - constructor; [intros ? []|constructor].
  - destruct (leb_of (cmp a b)).
    + constructor; [exact Ha | constructor; assumption].
    + constructor.
      * intros c Hc. apply (Permutation_in _ (insert_sorted_perm cmp a l)) in Hc.
        destruct Hc as [<-|Hc].
        -- intros E. apply (Ha b (or_introl eq_refl)). apply cmp_eq_sym, E.
        -- apply Hb, Hc.
      * apply IH. intros c Hc. apply Ha. right. exact Hc.
Qed.

Lemma sort_stable_Distinct (l : list A) :
  Distinct cmp l -> Distinct cmp (sort_stable cmp l).
Proof.
  induction 1 as [|a l Ha Hl IH]; simpl.
  - constructor.
  - apply insert_sorted_Distinct; [|exact IH].
    intros b Hb. apply sort_stable_In in Hb. apply Ha, Hb.
Qed.

Lemma sorted_unique_Distinct (l : list A) : Distinct cmp (sorted_unique cmp l).
Proof. apply sort_stable_Distinct, dedup_Distinct. Qed.

Lemma sorted_unique_In (l : list A) (x : A) : In x (sorted_unique cmp l) -> In x l.
Proof. unfold sorted_unique. rewrite sort_stable_In. apply dedup_In. Qed.

Lemma sorted_unique_covers (l : list A) (x : A) :
  In x l -> exists y, In y (sorted_unique cmp l) /\ cmp y x = Eq.
Proof.
  intros H. destruct (dedup_covers l x H) as [y [Hy E]].
  exists y. split; [|exact E]. unfold sorted_unique. apply sort_stable_In, Hy.
Qed.

Lemma sorted_unique_Sorted (l : list A) : Sorted (le_of cmp) (sorted_unique cmp l).
Proof. apply sort_stable_Sorted, cmp_anti. Qed.

End DedupFacts.

Lemma keys_of_In {K : Type} (key : LongRecord -> option K) (df : list LongRecord)
      (k : K) :
  In k (keys_of key df) <-> exists r, In r df /\ key r = Some k.
Proof.
  unfold keys_of. rewrite in_flat_map. split.
  - intros [r [Hr Hk]]. exists r. split; [exact Hr|].
    destruct (key r) as [k'|]; [|destruct Hk].
    destruct Hk as [->|[]]. reflexivity.
  - intros [r [Hr Hk]]. exists r. split; [exact Hr|]. rewrite Hk. left. reflexivity.
Qed.

Lemma pair_compare_antisym : cmp_antisym pair_compare.
Proof.
  apply (lex_antisym fst snd cell_compare cell_compare); exact cell_compare_antisym.
Qed.

Lemma pair_compare_eq_trans : cmp_eq_trans pair_compare.
Proof.
  apply (lex_eq_trans fst snd cell_compare cell_compare); exact cell_compare_eq_trans.
Qed.

Lemma cell_eqb_compare (a b : cell) :
  isna b = false -> eqb_of (cell_compare a b) = cell_eqb a b.
Proof. destruct a, b; simpl; intros H; try discriminate; reflexivity. Qed.

Lemma in_group_estacion_magnitud (k : cell * cell) (r : LongRecord) :
  in_group pair_compare key_estacion_magnitud k r
  = in_estacion_magnitud (fst k) (snd k) r.
Proof.
  unfold in_group, key_estacion_magnitud, in_estacion_magnitud, pair_compare.
  destruct (isna (ESTACION r)) eqn:E1; simpl.
  - destruct (ESTACION r); try discriminate. destruct (fst k); reflexivity.
  - destruct (isna (MAGNITUD r)) eqn:E2; simpl.
    + destruct (MAGNITUD r); try discriminate.
      destruct (snd k); simpl; rewrite ?andb_false_r; reflexivity.
    + rewrite <- (cell_eqb_compare _ _ E1), <- (cell_eqb_compare _ _ E2).
      destruct (cell_compare (fst k) (ESTACION r)); reflexivity.
Qed.








Lemma resumen_estadistico_eq (df : list LongRecord) :
  resumen_estadistico df
  = map (fun k => summary_of k df)
        (sorted_unique pair_compare (keys_of key_estacion_magnitud df)).
Proof.
  unfold resumen_estadistico, groupby_VALOR. rewrite map_map.
  apply map_ext. intros k. unfold summary_of, valores_de.
  rewrite (filter_ext _ _ (in_group_estacion_magnitud k)). reflexivity.
Qed.


Lemma filter_none {A : Type} (f : A -> bool) (l : list A) :
  (forall x, In x l -> f x = false) -> filter f l = [].
Proof.
  induction l as [|a l IH]; intros H; simpl.
  - reflexivity.
  - rewrite (H a (or_introl eq_refl)). apply IH.
    intros x Hx. apply H. right. exact Hx.
Qed.

Lemma find_combine_map {A B : Type} (f : A -> bool) (g : A -> B) (l : list A)
      (x : A) (y : B) :
  find (fun p => f (fst p)) (combine l (map g l)) = Some (x, y) ->
  In x l /\ f x = true /\ y = g x.
Proof.
  induction l as [|a l IH]; simpl.
  - discriminate.
  - destruct (f a) eqn:E.
    + intros H. injection H as <- <-. auto.
    + intros H. destruct (IH H) as [Hin Hrest]. split; [right; exact Hin | exact Hrest].
Qed.

Lemma groupby_VALOR_In {K B : Type} (cmp : K -> K -> comparison)
      (key : LongRecord -> option K) (f : list Q -> B) (df : list LongRecord)
      (e : K * B) :
  In e (groupby_VALOR cmp key f df) ->
  exists r, In r df /\ key r = Some (fst e).
Proof.
  unfold groupby_VALOR. intros H. apply in_map_iff in H.
  destruct H as [k [<- Hk]]. apply sorted_unique_In, keys_of_In in Hk. exact Hk.
Qed.

Lemma groupby_VALOR_keys {K B : Type} (cmp : K -> K -> comparison)
      (key : LongRecord -> option K) (f : list Q -> B) (df : list LongRecord) :
  map fst (groupby_VALOR cmp key f df) = sorted_unique cmp (keys_of key df).
Proof.
  unfold groupby_VALOR. rewrite map_map. simpl. apply map_id.
Qed.

Section PivotFacts.
Context {I C : Type}.
Variable cmpI : I -> I -> comparison.
Variable cmpC : C -> C -> comparison.
Hypothesis cmpI_anti : cmp_antisym cmpI.
Hypothesis cmpI_trans : cmp_eq_trans cmpI.
Hypothesis cmpC_anti : cmp_antisym cmpC.
Hypothesis cmpC_trans : cmp_eq_trans cmpC.

Let pair_cmp (a b : I * C) : comparison :=
  lex (cmpI (fst a) (fst b)) (cmpC (snd a) (snd b)).

Lemma cmp_Eq_chain {A : Type} (cmp : A -> A -> comparison) (a b c : A) :
  cmp_antisym cmp -> cmp_eq_trans cmp ->
  cmp a b = Eq -> cmp b c = Eq -> cmp a c = Eq.
Proof.
  intros Ha Ht Hab Hbc. apply (Ht b a c); [|exact Hbc].
  rewrite (Ha a b), Hab. reflexivity.
Qed.

Lemma same_entry_pair (i : I) (c : C) (e : (I * C) * option Q) :
  same_entry cmpI cmpC i c e = eqb_of (pair_cmp (i, c) (fst e)).
Proof.
  unfold same_entry, pair_cmp. simpl.
  destruct (cmpI i (fst (fst e))); destruct (cmpC c (snd (fst e))); reflexivity.
Qed.


(** A filled cell of a reshaped table comes from an entry with the same
    row and column labels. *)
Lemma matrix_get_unstack (entries : list ((I * C) * option Q)) (i : I) (c : C)
      (q : Q) :
  matrix_get cmpI cmpC (unstack cmpI cmpC entries) i c = Some q ->
  exists e, In e entries /\ cmpI i (fst (fst e)) = Eq /\ cmpC c (snd (fst e)) = Eq
            /\ snd e = Some q.
Proof.
  unfold matrix_get, unstack. cbn [index mcolumns mvalues].
  destruct (find _ (combine _ _)) as [[i' row]|] eqn:Ei; [|discriminate].
  apply (find_combine_map (fun x => eqb_of (cmpI i x))) in Ei.
  destruct Ei as [_ [Hi ->]].
  destruct (find _ (combine _ _)) as [[c' v]|] eqn:Ec; [|discriminate].
  apply (find_combine_map (fun x => eqb_of (cmpC c x))) in Ec.
  destruct Ec as [_ [Hc ->]].
  unfold entry_value. destruct (find _ entries) as [e|] eqn:Ee; [|discriminate].
  intros Hq. apply find_some in Ee. destruct Ee as [He Hs].
  unfold same_entry in Hs. apply andb_true_iff in Hs. destruct Hs as [Hs1 Hs2].
  exists e. split; [exact He|].
  destruct (cmpI i i') eqn:Eii; try discriminate.
  destruct (cmpC c c') eqn:Ecc; try discriminate.
  destruct (cmpI i' (fst (fst e))) eqn:E1; try discriminate.
  destruct (cmpC c' (snd (fst e))) eqn:E2; try discriminate.
  split; [eapply cmp_Eq_chain; eassumption|].
  split; [eapply cmp_Eq_chain; eassumption | exact Hq].
Qed.

Lemma matrix_get_pivot_table (entries : list ((I * C) * option Q)) (i : I) (c : C)
      (q : Q) :
  matrix_get cmpI cmpC (pivot_table cmpI cmpC entries) i c = Some q ->
  exists e, In e entries /\ cmpI i (fst (fst e)) = Eq /\ cmpC c (snd (fst e)) = Eq.
Proof.
  unfold pivot_table. intros H. apply matrix_get_unstack in H.
  destruct H as [e [He [Hi [Hc _]]]].
  apply filter_In in He. destruct He as [He _].
  apply in_map_iff in He. destruct He as [k [<- Hk]]. cbn [fst snd] in *.
  apply sorted_unique_In, in_map_iff in Hk. destruct Hk as [e [<- He]].
  exists e. auto.
Qed.

End PivotFacts.


Lemma ZZ_compare_antisym : cmp_antisym ZZ_compare.
Proof.
  apply (lex_antisym fst snd Z.compare Z.compare); exact Z_compare_antisym.
Qed.

Lemma ZZ_compare_eq_trans : cmp_eq_trans ZZ_compare.
Proof.
  apply (lex_eq_trans fst snd Z.compare Z.compare); exact Z_compare_eq_trans.
Qed.


Lemma filter_filter {A : Type} (f g : A -> bool) (l : list A) :
  filter g (filter f l) = filter (fun x => f x && g x) l.
Proof.
  induction l as [|a l IH]; simpl.
  - reflexivity.
  - destruct (f a); simpl; [destruct (g a); rewrite IH; reflexivity | exact IH].
Qed.

(** The frame [medidas_mensuales_por_estacion] aggregates. *)
Lemma medidas_mensuales_por_estacion_eq (df_long : list LongRecord)
      (estacion_codigo : Z) (ano : option Z) :
  medidas_mensuales_por_estacion df_long estacion_codigo ano
  = pivot_table ZZ_compare cell_compare
      (groupby_VALOR ZZ_cell_compare key_ano_mes_magnitud agg_mean
         (filter (coincide_estacion estacion_codigo ano) df_long)).
Proof.
  unfold medidas_mensuales_por_estacion, coincide_estacion.
  destruct ano as [a|].
  - rewrite filter_filter. reflexivity.
  - f_equal. f_equal. apply filter_ext. intros r. rewrite andb_true_r. reflexivity.
Qed.



(* ================================================================== *)
(** * Ingestion                                                        *)
(* ================================================================== *)

Lemma reads_of_app (t1 t2 : list event) :
  reads_of (t1 ++ t2) = reads_of t1 ++ reads_of t2.
Proof.
  induction t1 as [|e t1 IH]; simpl.
  - reflexivity.
  - destruct e; simpl; rewrite IH; reflexivity.
Qed.

Section IngestionFacts.
Variable listdir : string -> option (list string).
Variable path_join : string -> string -> string.
Variable read_csv : string -> option DataFrame.
Variable str_to_num : string -> option Q.

Lemma read_emisiones_csv_eq (path : string) :
  read_emisiones_csv read_csv path
  = match read_csv path with
    | Some df => ([EvRead path], Ok df)
    | None => ([EvRead path], Raise (ParserError path))
    end.
Proof.
  unfold read_emisiones_csv. destruct (read_csv path); reflexivity.
Qed.

(** The loop reads the files in the order of the list, stops at the first
    file that cannot be read, and raises nothing else. *)
Lemma leer_archivos_spec (data_dir : string) (files : list string) :
  exists n,
    reads_of (fst (leer_archivos path_join read_csv data_dir files))
    = map (path_join data_dir) (firstn n files)
    /\ ((exists dfs, snd (leer_archivos path_join read_csv data_dir files) = Ok dfs
                     /\ n = List.length files)
        \/ (exists f, In f files
                      /\ read_csv (path_join data_dir f) = None
                      /\ snd (leer_archivos path_join read_csv data_dir files)
                         = Raise (ParserError (path_join data_dir f)))).
Proof.
  induction files as [|fn files IH].
  - exists 0%nat. split; [reflexivity|]. left. exists []. split; reflexivity.
  - cbn [leer_archivos]. rewrite read_emisiones_csv_eq.
    destruct (read_csv (path_join data_dir fn)) as [df|] eqn:Er.
    + destruct IH as [n [Hreads Hres]].
      destruct (leer_archivos path_join read_csv data_dir files) as [t r] eqn:El.
      cbn [fst snd] in Hreads, Hres.
      exists (S n). split.
      * unfold io_bind, emit, io_ret. destruct r; cbn [fst reads_of app firstn map];
          rewrite ?reads_of_app, ?app_nil_r; rewrite Hreads; reflexivity.
      * destruct Hres as [[dfs [-> ->]]|[f [Hf [Hnone ->]]]].
        -- left. eexists. split; reflexivity.
        -- right. exists f. split; [right; exact Hf|]. split; [exact Hnone|reflexivity].
    + exists 1%nat. split; [reflexivity|].
      right. exists fn. split; [left; reflexivity|]. split; [exact Er|reflexivity].
Qed.

Lemma cargar_todo_eq (data_dir : string) (names : list string) :
  listdir data_dir = Some names ->
  cargar_todo listdir path_join read_csv data_dir
  = match sort_stable String.compare (filter es_archivo_emisiones names) with
    | [] => ([], Raise (RuntimeError data_dir))
    | files =>
        match leer_archivos path_join read_csv data_dir files with
        | (t, Ok dfs) =>
            (t ++ [EvConcatenado (shape (concat dfs))], Ok (concat dfs))
        | (t, Raise e) => (t, Raise e)
        end
    end.
Proof.
  intros Hl. unfold cargar_todo. rewrite Hl.
  destruct (sort_stable String.compare (filter es_archivo_emisiones names)) as [|f fs];
    [reflexivity|].
  unfold io_bind, emit, io_ret.
  destruct (leer_archivos path_join read_csv data_dir (f :: fs)) as [t [dfs|e]];
    [|reflexivity].
  cbn [app]. rewrite ?app_nil_r. reflexivity.
Qed.

Lemma sort_stable_nil_iff {A : Type} (cmp : A -> A -> comparison) (l : list A) :
  sort_stable cmp l = [] <-> l = [].
Proof.
  split; [|intros ->; reflexivity].
  intros H. pose proof (sort_stable_length cmp l) as Hlen. rewrite H in Hlen.
  destruct l; [reflexivity | discriminate].
Qed.

End IngestionFacts.

Lemma Distinct_NoDup {A : Type} (cmp : A -> A -> comparison) (l : list A) :
  (forall x, cmp x x = Eq) -> Distinct cmp l -> NoDup l.
Proof.
  intros Hrefl. induction 1 as [|a l Ha Hl IH]; constructor.
  - intros Hin. apply (Ha a Hin), Hrefl.
  - exact IH.
Qed.


Lemma string_leb_le_of (a b : string) :
  le_of String.compare a b <-> String.leb a b = true.
Proof.
  unfold le_of, String.leb. destruct (String.compare a b); intuition congruence.
Qed.

(** C8. In a directory that can be listed, [cargar_todo] raises the
    RuntimeError "No se encontraron archivos" exactly when no name in it
    starts with [emisiones-] and ends with [.csv]; then nothing has been
    read or printed, and [main] stops there with the same error and no
    table.  Otherwise the files are read in ascending order of their names,
    up to the first one that cannot be read, and all of them when every
    file is readable, in which case the raw table is returned. *)
Theorem cargar_todo_no_input_found
        (listdir : string -> option (list string))
        (path_join : string -> string -> string)
        (read_csv : string -> option DataFrame)
        (str_to_num : string -> option Q)
        (data_dir : string) (names : list string) :
  listdir data_dir = Some names ->
  let files := sort_stable String.compare (filter es_archivo_emisiones names) in
  ((exists d, snd (cargar_todo listdir path_join read_csv data_dir)
              = Raise (RuntimeError d))
   <-> forall f, In f names -> es_archivo_emisiones f = false)
  /\ ((forall f, In f names -> es_archivo_emisiones f = false) ->
      cargar_todo listdir path_join read_csv data_dir
      = ([], Raise (RuntimeError data_dir))
      /\ main listdir path_join read_csv str_to_num data_dir
         = ([], Raise (RuntimeError data_dir)))
  /\ Sorted (fun a b => String.leb a b = true) files
  /\ Permutation files (filter es_archivo_emisiones names)
  /\ (exists n, reads_of (fst (cargar_todo listdir path_join read_csv data_dir))
                = map (path_join data_dir) (firstn n files))
  /\ ((forall f, In f files -> read_csv (path_join data_dir f) <> None) ->
      reads_of (fst (cargar_todo listdir path_join read_csv data_dir))
      = map (path_join data_dir) files
      /\ (files <> [] ->
          exists raw, snd (cargar_todo listdir path_join read_csv data_dir) = Ok raw)).
Proof.
  intros Hl files.
  pose proof (cargar_todo_eq listdir path_join read_csv data_dir names Hl) as Heq.
  fold files in Heq.
  assert (files = [] <-> forall f, In f names -> es_archivo_emisiones f = false) as Hnil.
  { unfold files. rewrite sort_stable_nil_iff. split.
    - intros H f Hf. destruct (es_archivo_emisiones f) eqn:E; [|reflexivity].
      assert (In f (filter es_archivo_emisiones names)) as Hin
          by (apply filter_In; auto).
      rewrite H in Hin. destruct Hin.
    - apply filter_none. }
  assert (Sorted (fun a b => String.leb a b = true) files) as HS.
  { apply Sorted_impl with (R := le_of String.compare).
    - intros a b. apply string_leb_le_of.
    - apply sort_stable_Sorted. exact string_compare_antisym. }
  assert (Permutation files (filter es_archivo_emisiones names)) as HP
      by apply sort_stable_perm.
  assert (forall e, cargar_todo listdir path_join read_csv data_dir = ([], Raise e) ->
                    main listdir path_join read_csv str_to_num data_dir
                    = ([], Raise e)) as Hmain.
  { intros e H. unfold main. rewrite H. reflexivity. }
  destruct (leer_archivos_spec path_join read_csv data_dir files) as [n [Hreads Hres]].
  clearbody files.
  split; [|split; [|split; [exact HS|split; [exact HP|]]]].
  - rewrite <- Hnil. destruct files as [|f fs].
    + split; [reflexivity|]. intros _. exists data_dir. rewrite Heq. reflexivity.
    + split; [|discriminate]. intros [d Hd]. exfalso. rewrite Heq in Hd.
      destruct (leer_archivos path_join read_csv data_dir (f :: fs)) as [t [dfs|e]].
      * discriminate Hd.
      * cbn [snd] in Hd, Hres.
        destruct Hres as [[dfs [H _]]|[g [_ [_ H]]]]; congruence.
  - intros H. apply Hnil in H. subst files.
    split; [exact Heq | apply Hmain, Heq].
  - destruct files as [|f fs].
    + split.
      * exists 0%nat. rewrite Heq. reflexivity.
      * intros _. rewrite Heq. split; [reflexivity | congruence].
    + destruct (leer_archivos path_join read_csv data_dir (f :: fs)) as [t [dfs|e]];
        rewrite Heq; cbn [fst snd] in Hreads, Hres |- *.
      * assert (reads_of (t ++ [EvConcatenado (shape (concat dfs))]) = reads_of t)
          as Hrt by (rewrite reads_of_app; apply app_nil_r).
        rewrite Hrt. split.
        -- exists n. exact Hreads.
        -- intros _. split; [|intros _; eexists; reflexivity].
           destruct Hres as [[dfs' [_ ->]]|[g [_ [_ H]]]]; [|discriminate H].
           rewrite Hreads, firstn_all. reflexivity.
      * split.
        -- exists n. exact Hreads.
        -- intros Hread. exfalso.
           destruct Hres as [[dfs' [H _]]|[g [Hg [Hnone _]]]]; [discriminate H|].
           apply (Hread g Hg Hnone).
Qed.

(* ================================================================== *)
(** * The theorems at sample tables                                    *)
(* ================================================================== *)

Lemma filtrar_columnas_columns_witness :
  NoDup (columns raw_ejemplo)
  /\ (forall c, In c base_cols -> In c (columns raw_ejemplo))
  /\ filtrar_columnas raw_ejemplo
     = Ok {| columns := ["ESTACION"; "MAGNITUD"; "ANO"; "MES"; "D01"; "D02"; "D10"];
             rows := [[Num 4; Num 1; Num 2016; Num 1; Num 1; Num 2; Num 10]] |}.
Proof.
  assert (NoDup (columns raw_ejemplo)) as H1.
  { repeat (constructor; [simpl; intuition discriminate|]). constructor. }
  assert (forall c, In c base_cols -> In c (columns raw_ejemplo)) as H2.
  { intros c Hc. simpl in Hc. simpl. intuition. }
  split; [exact H1|]. split; [exact H2|].
  destruct (filtrar_columnas_columns raw_ejemplo H1 H2) as [H _].
  rewrite H. reflexivity.
Defined.

Lemma filtrar_columnas_missing_witness :
  (exists c, In c base_cols /\ ~ In c (columns raw_sin_ano_mes))
  /\ filtrar_columnas raw_sin_ano_mes = Raise (KeyError ["ANO"; "MES"])
  /\ forall out, filtrar_columnas raw_sin_ano_mes <> Ok out.
Proof.
  assert (exists c, In c base_cols /\ ~ In c (columns raw_sin_ano_mes)) as H.
  { exists "ANO". split; simpl; intuition discriminate. }
  split; [exact H|]. split; [reflexivity|].
  destruct (filtrar_columnas_missing raw_sin_ano_mes) as [_ [_ [Hno _]]].
  exact (Hno H).
Defined.

Lemma limpiar_y_ordenar_valid_record_witness :
  limpiar_y_ordenar largo_ejemplo
  = [registro 4 1 1 None; registro 4 1 3 (Some 6%Q); registro 5 1 2 (Some 8%Q)]
  /\ FECHA (registro 4 1 1 None) <> None
  /\ sort_key_le (registro 4 1 1 None) (registro 4 1 3 (Some 6%Q)).
Proof.
  destruct (limpiar_y_ordenar_valid_record largo_ejemplo) as [Hf [_ Hs]].
  split; [reflexivity|]. split.
  - apply Hf. left. reflexivity.
  - apply (Hs 0%nat); reflexivity.
Defined.




Lemma cargar_todo_no_input_found_witness :
  listdir_ejemplo "datos"
  = Some ["notas.txt"; "emisiones-2017.csv"; "emisiones-2016.csv"]
  /\ reads_of (fst (cargar_todo listdir_ejemplo path_join_ejemplo read_csv_ejemplo
                                "datos"))
     = ["datos/emisiones-2016.csv"; "datos/emisiones-2017.csv"]
  /\ listdir_ejemplo "vacio" = Some ["notas.txt"; "emisiones-2016.xlsx"]
  /\ main listdir_ejemplo path_join_ejemplo read_csv_ejemplo parse_decimal "vacio"
     = ([], Raise (RuntimeError "vacio")).
Proof.
  split; [reflexivity|]. split.
  - destruct (cargar_todo_no_input_found listdir_ejemplo path_join_ejemplo
                read_csv_ejemplo parse_decimal "datos" _ eq_refl)
      as [_ [_ [_ [_ [_ H]]]]].
    apply H. intros f Hf. simpl in Hf.
    destruct Hf as [<-|[<-|[]]]; discriminate.
  - split; [reflexivity|].
    destruct (cargar_todo_no_input_found listdir_ejemplo path_join_ejemplo
                read_csv_ejemplo parse_decimal "vacio" _ eq_refl)
      as [_ [H _]].
    apply H. intros f Hf. simpl in Hf.
    destruct Hf as [<-|[<-|[]]]; reflexivity.
Defined.

(** Two files for station 101 and pollutant 1, one cell holding text: the
    record of that cell has no value but has its date, and the summary
    counts the three numeric cells. *)
Example main_ejemplo :
  exists t filtrado largo validas desc,
    main listdir_ejemplo path_join_ejemplo read_csv_ejemplo parse_decimal "datos"
    = (t, Ok (filtrado, largo, validas, desc))
    /\ reads_of t = ["datos/emisiones-2016.csv"; "datos/emisiones-2017.csv"]
    /\ List.length largo = 4%nat
    /\ map (fun r => (DIA_STR r, VALOR r, FECHA r)) (firstn 2 validas)
       = [("D01", Some 12%Q, Some (mkDate 2016 2 1));
          ("D02", None, Some (mkDate 2016 2 2))]
    /\ map count desc = [3%nat].
Proof. do 5 eexists. repeat split. Qed.

(* ================================================================== *)
(** * Further properties of the cleaner and the schema filter          *)
(* ================================================================== *)

Lemma sort_stable_sorted_id {A : Type} (cmp : A -> A -> comparison) (l : list A) :
  Sorted (le_of cmp) l -> sort_stable cmp l = l.
Proof.
  induction 1 as [|a l Hs IH Hhd]; simpl.
  - reflexivity.
  - rewrite IH. destruct Hhd as [|b l' Hab]; simpl.
    + reflexivity.
    + unfold le_of in Hab. destruct (cmp a b); simpl; congruence.
Qed.

Lemma filter_all {A : Type} (f : A -> bool) (l : list A) :
  (forall x, In x l -> f x = true) -> filter f l = l.
Proof.
  induction l as [|a l IH]; intros H; simpl.
  - reflexivity.
  - rewrite (H a (or_introl eq_refl)). f_equal. apply IH.
    intros x Hx. apply H. right. exact Hx.
Qed.

(** X1. Cleaning a cleaned table changes nothing. *)
Theorem limpiar_y_ordenar_idempotent (long_df : list LongRecord) :
  limpiar_y_ordenar (limpiar_y_ordenar long_df) = limpiar_y_ordenar long_df.
Proof.
  unfold limpiar_y_ordenar at 1.
  rewrite filter_all.
  - apply sort_stable_sorted_id. unfold limpiar_y_ordenar.
    apply sort_stable_Sorted. exact sort_key_compare_antisym.
  - intros r Hr. apply limpiar_y_ordenar_In in Hr. unfold notna_fecha.
    destruct (FECHA r); [reflexivity | tauto].
Qed.






(** The table [filtrar_columnas] returns when the labels are distinct and
    the identifiers present. *)
Lemma filtrar_columnas_ok (raw : DataFrame) :
  NoDup (columns raw) ->
  (forall c, In c base_cols -> In c (columns raw)) ->
  filtrar_columnas raw
  = Ok {| columns := base_cols
                     ++ sorted_by_key day_number (filter is_day_col (columns raw));
          rows := map (fun r => map (fun c => get_cell raw c r)
                                    (base_cols ++ sorted_by_key day_number
                                                    (filter is_day_col (columns raw))))
                      (rows raw) |}.
Proof.
  intros Hnd Hbase.
  unfold filtrar_columnas. rewrite sort_day_cols_ok. cbn [bind].
  rewrite (proj2 (filter_absent_nil raw base_cols) Hbase).
  apply getitem_cols_unique; [exact Hnd|].
  intros c Hc. apply in_app_or in Hc. destruct Hc as [Hc|Hc].
  - apply Hbase, Hc.
  - apply sorted_day_cols_In in Hc. tauto.
Qed.


Lemma filtrar_columnas_ok_base (raw out : DataFrame) :
  filtrar_columnas raw = Ok out -> forall c, In c base_cols -> In c (columns raw).
Proof.
  unfold filtrar_columnas. rewrite sort_day_cols_ok. cbn [bind].
  destruct (filter (fun c => negb (has_col raw c)) base_cols) eqn:E.
  - intros _. apply filter_absent_nil. exact E.
  - discriminate.
Qed.

Lemma positions_from_nth_error (k : nat) (c : string) (cols : list string) :
  NoDup cols -> In c cols ->
  exists i, positions_from k c cols = [(k + i)%nat] /\ nth_error cols i = Some c.
Proof.
  revert k. induction cols as [|x cols IH]; intros k Hnd Hin.
  - destruct Hin.
  - inversion Hnd as [|? ? Hx Hnd']; subst. simpl.
    destruct (String.eqb_spec c x) as [->|Hne].
    + exists 0%nat. rewrite (positions_from_absent _ _ _ Hx).
      rewrite Nat.add_0_r. split; reflexivity.
    + destruct Hin as [->|Hin]; [congruence|].
      destruct (IH (S k) Hnd' Hin) as [i [Hp Hn]].
      exists (S i). rewrite Hp. split; [f_equal; lia | exact Hn].
Qed.

(** Reading a cell back from a row laid out along the labels. *)
Lemma get_cell_aligned (L : list string) (rs : list (list cell))
      (f : string -> cell) (c : string) :
  NoDup L -> In c L ->
  get_cell {| columns := L; rows := rs |} c (map f L) = f c.
Proof.
  intros Hnd Hin. unfold get_cell. cbn [columns].
  destruct (positions_from_nth_error 0 c L Hnd Hin) as [i [-> Hn]].
  cbn [Nat.add]. apply nth_error_nth.
  rewrite nth_error_map, Hn. reflexivity.
Qed.

Lemma base_cols_not_day (c : string) : In c base_cols -> is_day_col c = false.
Proof.
  intros H. simpl in H.
  repeat (destruct H as [<-|H]; [reflexivity|]). destruct H.
Qed.

Lemma NoDup_base_days (cols : list string) :
  NoDup cols ->
  NoDup (base_cols ++ sorted_by_key day_number (filter is_day_col cols)).
Proof.
  intros Hnd. apply NoDup_app.
  - repeat (constructor; [simpl; intuition discriminate|]). constructor.
  - apply (Permutation_NoDup (l := filter is_day_col cols)).
    + apply Permutation_sym, sort_stable_perm.
    + apply NoDup_filter, Hnd.
  - intros c Hb Hd. apply sorted_day_cols_In in Hd.
    rewrite (base_cols_not_day c Hb) in Hd. destruct Hd. discriminate.
Qed.

(** X3. Filtering a filtered table gives the same table back. *)
Theorem filtrar_columnas_idempotent (raw out : DataFrame) :
  NoDup (columns raw) ->
  filtrar_columnas raw = Ok out ->
  filtrar_columnas out = Ok out.
Proof.
  intros Hnd Hok.
  pose proof (filtrar_columnas_ok raw Hnd (filtrar_columnas_ok_base raw out Hok)) as H.
  set (days := sorted_by_key day_number (filter is_day_col (columns raw))) in H.
  assert (NoDup (base_cols ++ days)) as HndL by (apply NoDup_base_days, Hnd).
  assert (filter is_day_col (base_cols ++ days) = days) as Hdays.
  { rewrite filter_app.
    replace (filter is_day_col base_cols) with (@nil string) by reflexivity.
    apply filter_all. intros c Hc. apply sorted_day_cols_In in Hc. tauto. }
  assert (sorted_by_key day_number days = days) as Hsorted.
  { apply sort_stable_sorted_id. apply sort_stable_Sorted.
    intros a b. apply Z.compare_antisym. }
  assert (forall c, In c base_cols -> In c (base_cols ++ days)) as HbaseL.
  { intros c Hc. apply in_or_app. left. exact Hc. }
  remember (base_cols ++ days) as L eqn:EL.
  assert (out = {| columns := L;
                   rows := map (fun r => map (fun c => get_cell raw c r) L)
                               (rows raw) |}) as -> by congruence.
  rewrite filtrar_columnas_ok; cbn [columns rows]; [|exact HndL|exact HbaseL].
  rewrite Hdays, Hsorted, <- EL.
  f_equal. f_equal. rewrite map_map. apply map_ext. intros r.
  apply map_ext_in. intros c Hc.
  apply (get_cell_aligned L _ (fun c => get_cell raw c r) c HndL Hc).
Qed.

(* ================================================================== *)
(** * Further properties of the reshape engine                         *)
(* ================================================================== *)








Lemma flat_map_pointwise_in {A B : Type} (f g : A -> list B) (l : list A) :
  (forall x, In x l -> f x = g x) -> flat_map f l = flat_map g l.
Proof.
  induction l as [|a l IH]; intros H; simpl.
  - reflexivity.
  - rewrite (H a (or_introl eq_refl)), IH; [reflexivity|].
    intros x Hx. apply H. right. exact Hx.
Qed.



(* ================================================================== *)
(** * Further properties of the ingestion                              *)
(* ================================================================== *)

Lemma nth_via_error {A : Type} (l : list A) (i : nat) (d : A) :
  nth i l d = match nth_error l i with Some x => x | None => d end.
Proof.
  revert i. induction l as [|a l IH]; intros [|i]; simpl; try reflexivity.
  apply IH.
Qed.

Lemma positions_from_app (k : nat) (c : string) (l1 l2 : list string) :
  positions_from k c (l1 ++ l2)
  = positions_from k c l1 ++ positions_from (k + List.length l1) c l2.
Proof.
  revert k. induction l1 as [|x l1 IH]; intros k; simpl.
  - rewrite Nat.add_0_r. reflexivity.
  - rewrite IH. replace (S k + List.length l1)%nat with (k + S (List.length l1))%nat by lia.
    destruct (String.eqb c x); reflexivity.
Qed.

Lemma positions_from_In (k : nat) (c : string) (cols : list string) (i : nat) :
  In i (positions_from k c cols) ->
  (k <= i)%nat /\ nth_error cols (i - k) = Some c.
Proof.
  revert k. induction cols as [|x cols IH]; intros k; simpl.
  - tauto.
  - destruct (String.eqb_spec c x) as [->|Hne].
    + intros [<-|H].
      * rewrite Nat.sub_diag. auto.
      * destruct (IH (S k) H) as [Hle Hn]. split; [lia|].
        replace (i - k)%nat with (S (i - S k)) by lia. exact Hn.
    + intros H. destruct (IH (S k) H) as [Hle Hn]. split; [lia|].
      replace (i - k)%nat with (S (i - S k)) by lia. exact Hn.
Qed.

Lemma positions_from_nil_iff (k : nat) (c : string) (cols : list string) :
  positions_from k c cols = [] <-> ~ In c cols.
Proof.
  split; [|apply positions_from_absent].
  revert k. induction cols as [|x cols IH]; intros k H; simpl in *.
  - tauto.
  - destruct (String.eqb_spec c x) as [->|Hne]; [discriminate|].
    intros [E|Hin]; [congruence | exact (IH (S k) H Hin)].
Qed.

Lemma nth_error_combine_seq {A : Type} (k : nat) (r : list A) (i : nat) :
  nth_error (combine (seq k (List.length r)) r) i
  = option_map (fun x => ((k + i)%nat, x)) (nth_error r i).
Proof.
  revert k i. induction r as [|a r IH]; intros k i; simpl.
  - destruct i; reflexivity.
  - destruct i as [|i]; simpl.
    + rewrite Nat.add_0_r. reflexivity.
    + rewrite IH. replace (S k + i)%nat with (k + S i)%nat by lia. reflexivity.
Qed.

(** The row that [df[c0] = v] makes of row [r]. *)
Lemma setitem_const_rows (c0 : string) (v : cell) (df : DataFrame) :
  rows (setitem_const c0 v df)
  = map (fun r => match positions_from 0 c0 (columns df) with
                  | [] => r ++ [v]
                  | ps => map (fun ic => if existsb (Nat.eqb (fst ic)) ps
                                         then v else snd ic)
                              (combine (seq 0 (List.length r)) r)
                  end) (rows df).
Proof.
  unfold setitem_const. destruct (positions_from 0 c0 (columns df)); reflexivity.
Qed.

(** After [df[c0] = v], the column [c0] holds [v] in every row and every
    other column holds what it held. *)
Lemma get_cell_setitem_const (c0 c : string) (v : cell) (df : DataFrame)
      (r r' : list cell) :
  List.length r = List.length (columns df) ->
  r' = match positions_from 0 c0 (columns df) with
       | [] => r ++ [v]
       | ps => map (fun ic => if existsb (Nat.eqb (fst ic)) ps then v else snd ic)
                   (combine (seq 0 (List.length r)) r)
       end ->
  get_cell (setitem_const c0 v df) c r'
  = if String.eqb c c0 then v else get_cell df c r.
Proof.
  intros Hlen ->. unfold get_cell, setitem_const.
  destruct (positions_from 0 c0 (columns df)) as [|i0 ps0] eqn:E0; cbn [columns].
  - rewrite positions_from_app. cbn [positions_from Nat.add].
    apply positions_from_nil_iff in E0.
    destruct (String.eqb_spec c c0) as [->|Hne].
    + rewrite (positions_from_absent _ _ _ E0). cbn [app].
      rewrite <- Hlen, nth_via_error, nth_error_app2, Nat.sub_diag by lia.
      reflexivity.
    + rewrite app_nil_r.
      destruct (positions_from 0 c (columns df)) as [|i ps] eqn:E; [reflexivity|].
      assert (In i (positions_from 0 c (columns df))) as Hi
          by (rewrite E; left; reflexivity).
      apply positions_from_In in Hi. destruct Hi as [_ Hi].
      rewrite Nat.sub_0_r in Hi.
      assert (i < List.length r)%nat as Hlt
          by (rewrite Hlen; apply nth_error_Some; congruence).
      rewrite !nth_via_error, nth_error_app1 by exact Hlt. reflexivity.
  - destruct (String.eqb_spec c c0) as [->|Hne].
    + rewrite E0.
      assert (In i0 (positions_from 0 c0 (columns df))) as Hi
          by (rewrite E0; left; reflexivity).
      apply positions_from_In in Hi. destruct Hi as [_ Hi].
      rewrite Nat.sub_0_r in Hi.
      assert (i0 < List.length r)%nat as Hlt
          by (rewrite Hlen; apply nth_error_Some; congruence).
      rewrite nth_via_error, nth_error_map, nth_error_combine_seq.
      destruct (nth_error r i0) as [x|] eqn:Ex.
      * cbn [option_map Nat.add fst existsb]. rewrite Nat.eqb_refl. reflexivity.
      * apply nth_error_None in Ex. lia.
    + destruct (positions_from 0 c (columns df)) as [|i ps] eqn:E; [reflexivity|].
      assert (In i (positions_from 0 c (columns df))) as Hi
          by (rewrite E; left; reflexivity).
      apply positions_from_In in Hi. destruct Hi as [_ Hi].
      rewrite Nat.sub_0_r in Hi.
      rewrite !nth_via_error, nth_error_map, nth_error_combine_seq.
      destruct (nth_error r i) as [x|] eqn:Ex; [|reflexivity].
      cbn [option_map Nat.add fst snd].
      destruct (existsb (Nat.eqb i) (i0 :: ps0)) eqn:Ee; [|reflexivity].
      exfalso. apply existsb_exists in Ee. destruct Ee as [j [Hj Hij]].
      apply Nat.eqb_eq in Hij. subst j. rewrite <- E0 in Hj.
      apply positions_from_In in Hj. destruct Hj as [_ Hj].
      rewrite Nat.sub_0_r in Hj. congruence.
Qed.

Lemma dedup_string_In (l : list string) (c : string) :
  In c (dedup String.compare l) <-> In c l.
Proof.
  split; [apply dedup_In|]. intros H.
  destruct (dedup_covers String.compare string_compare_antisym
              string_compare_eq_trans l c H) as [y [Hy E]].
  apply String.compare_eq_iff in E. subst y. exact Hy.
Qed.

Lemma get_cell_absent (df : DataFrame) (c : string) (r : list cell) :
  ~ In c (columns df) -> get_cell df c r = NaN.
Proof.
  intros H. unfold get_cell. rewrite (positions_from_absent _ _ _ H). reflexivity.
Qed.

(** A row of the concatenation holds, under every label, the cell the row
    had in its own frame (NaN when that frame lacks the label). *)
Lemma get_cell_concat (dfs : list DataFrame) (df : DataFrame) (c : string)
      (r : list cell) :
  In df dfs ->
  get_cell (concat dfs) c (map (fun c' => get_cell df c' r) (columns (concat dfs)))
  = get_cell df c r.
Proof.
  intros Hdf.
  assert (NoDup (columns (concat dfs))) as Hnd.
  { apply (Distinct_NoDup String.compare); [exact string_compare_refl|].
    apply dedup_Distinct. }
  destruct (in_dec string_dec c (columns (concat dfs))) as [Hin|Hout].
  - exact (get_cell_aligned (columns (concat dfs)) (rows (concat dfs))
             (fun c' => get_cell df c' r) c Hnd Hin).
  - rewrite (get_cell_absent _ _ _ Hout). symmetry. apply get_cell_absent.
    intros Hc. apply Hout. cbn [concat columns]. apply dedup_string_In.
    apply in_flat_map. exists df. auto.
Qed.

(** A column of the concatenation is the concatenation of that column
    over the frames. *)
Lemma concat_column (dfs : list DataFrame) (c : string) :
  map (get_cell (concat dfs) c) (rows (concat dfs))
  = flat_map (fun df => map (get_cell df c) (rows df)) dfs.
Proof.
  assert (rows (concat dfs)
          = flat_map (fun df => map (fun r => map (fun c' => get_cell df c' r)
                                                  (columns (concat dfs)))
                                    (rows df)) dfs) as -> by reflexivity.
  rewrite flat_map_map. apply flat_map_pointwise_in. intros df Hdf.
  rewrite map_map. apply map_ext. intros r. apply get_cell_concat, Hdf.
Qed.

Lemma setitem_const_column (c0 c : string) (v : cell) (df : DataFrame) :
  rectangular df ->
  map (get_cell (setitem_const c0 v df) c) (rows (setitem_const c0 v df))
  = map (fun r => if String.eqb c c0 then v else get_cell df c r) (rows df).
Proof.
  intros Hrect. rewrite setitem_const_rows, map_map.
  apply map_ext_in. intros r Hr.
  apply (get_cell_setitem_const c0 c v df r); [|reflexivity].
  unfold rectangular in Hrect. rewrite Forall_forall in Hrect. apply Hrect, Hr.
Qed.

Lemma flat_map_of_map {A B C : Type} (g : B -> list C) (h : A -> B) (l : list A) :
  flat_map g (map h l) = flat_map (fun x => g (h x)) l.
Proof.
  induction l as [|a l IH]; simpl; [reflexivity | rewrite IH; reflexivity].
Qed.

Lemma length_flat_map_map {A B C : Type} (g : A -> B -> C) (h : A -> list B)
      (l : list A) :
  List.length (flat_map (fun x => map (g x) (h x)) l)
  = list_sum (map (fun x => List.length (h x)) l).
Proof.
  induction l as [|a l IH]; simpl.
  - reflexivity.
  - rewrite length_app, length_map, IH. reflexivity.
Qed.

Section IngestionCells.
Variable listdir : string -> option (list string).
Variable path_join : string -> string -> string.
Variable read_csv : string -> option DataFrame.

Lemma leer_archivos_ok (data_dir : string) (files : list string) :
  (forall f, In f files -> read_csv (path_join data_dir f) <> None) ->
  snd (leer_archivos path_join read_csv data_dir files)
  = Ok (map (fun f => setitem_const "__ARCHIVO__" (Str f)
                                    (archivo read_csv (path_join data_dir f)))
            files).
Proof.
  induction files as [|fn files IH]; intros Hread.
  - reflexivity.
  - destruct (read_csv (path_join data_dir fn)) as [df|] eqn:Er;
      [|exfalso; apply (Hread fn (or_introl eq_refl) Er)].
    assert (archivo read_csv (path_join data_dir fn) = df) as Ha
        by (unfold archivo; rewrite Er; reflexivity).
    assert (forall f, In f files -> read_csv (path_join data_dir f) <> None) as H'
        by (intros f Hf; apply Hread; right; exact Hf).
    specialize (IH H').
    cbn [leer_archivos map]. rewrite read_emisiones_csv_eq, Er, Ha.
    destruct (leer_archivos path_join read_csv data_dir files) as [t r].
    cbn [snd] in IH. subst r. reflexivity.
Qed.

(** X9. Provenance and content of the raw table.  When every input file is
    read as a rectangular frame, column by column the raw table is the
    files one after the other in ascending order of their names, each with
    its rows in their order: under [__ARCHIVO__] a row carries the name of
    its file, under any other label the cell it had in its file (NaN when
    the file has no such column).  No row is lost or added. *)
Theorem cargar_todo_cells (data_dir : string) (names : list string) :
  listdir data_dir = Some names ->
  let files := sort_stable String.compare (filter es_archivo_emisiones names) in
  files <> [] ->
  (forall f, In f files ->
             read_csv (path_join data_dir f) <> None
             /\ rectangular (archivo read_csv (path_join data_dir f))) ->
  exists raw,
    snd (cargar_todo listdir path_join read_csv data_dir) = Ok raw
    /\ (forall c,
          map (get_cell raw c) (rows raw)
          = flat_map
              (fun f =>
                 map (fun r => if String.eqb c "__ARCHIVO__" then Str f
                               else get_cell (archivo read_csv (path_join data_dir f)) c r)
                     (rows (archivo read_csv (path_join data_dir f))))
              files)
    /\ List.length (rows raw)
       = list_sum (map (fun f => List.length
                                   (rows (archivo read_csv (path_join data_dir f))))
                       files).
Proof.
  intros Hl files Hne Hfiles.
  pose proof (cargar_todo_eq listdir path_join read_csv data_dir names Hl) as Heq.
  fold files in Heq.
  pose proof (leer_archivos_ok data_dir files (fun f Hf => proj1 (Hfiles f Hf))) as Hok.
  clearbody files.
  destruct files as [|f0 fs]; [congruence|].
  destruct (leer_archivos path_join read_csv data_dir (f0 :: fs)) as [t r].
  cbn [snd] in Hok. subst r. rewrite Heq. cbn [snd].
  set (tag := fun f => setitem_const "__ARCHIVO__" (Str f)
                                     (archivo read_csv (path_join data_dir f))).
  fold tag. set (dfs := map tag (f0 :: fs)).
  assert (forall c,
             map (get_cell (concat dfs) c) (rows (concat dfs))
             = flat_map
                 (fun f =>
                    map (fun r => if String.eqb c "__ARCHIVO__" then Str f
                                  else get_cell (archivo read_csv (path_join data_dir f)) c r)
                        (rows (archivo read_csv (path_join data_dir f))))
                 (f0 :: fs)) as Hcells.
  { intros c. rewrite concat_column. unfold dfs. rewrite flat_map_of_map.
    apply flat_map_pointwise_in. intros f Hf. unfold tag.
    rewrite setitem_const_column by (apply Hfiles, Hf). reflexivity. }
  exists (concat dfs). split; [reflexivity|]. split; [exact Hcells|].
  pose proof (f_equal (@List.length cell) (Hcells "__ARCHIVO__")) as Hlen.
  rewrite length_map in Hlen. rewrite Hlen.
  apply length_flat_map_map.
Qed.

End IngestionCells.

Section IngestionFailure.
Variable listdir : string -> option (list string).
Variable path_join : string -> string -> string.
Variable read_csv : string -> option DataFrame.

Lemma leer_archivos_unreadable (data_dir : string) (pre post : list string)
      (g : string) :
  (forall f, In f pre -> read_csv (path_join data_dir f) <> None) ->
  read_csv (path_join data_dir g) = None ->
  snd (leer_archivos path_join read_csv data_dir (pre ++ g :: post))
  = Raise (ParserError (path_join data_dir g))
  /\ reads_of (fst (leer_archivos path_join read_csv data_dir (pre ++ g :: post)))
     = map (path_join data_dir) (pre ++ [g]).
Proof.
  intros Hpre Hg. induction pre as [|fn pre IH].
  - cbn [app leer_archivos]. rewrite read_emisiones_csv_eq, Hg. split; reflexivity.
  - destruct (read_csv (path_join data_dir fn)) as [df|] eqn:Er;
      [|exfalso; apply (Hpre fn (or_introl eq_refl) Er)].
    assert (forall f, In f pre -> read_csv (path_join data_dir f) <> None) as H'
        by (intros f Hf; apply Hpre; right; exact Hf).
    destruct (IH H') as [IH1 IH2].
    cbn [app leer_archivos]. rewrite read_emisiones_csv_eq, Er.
    destruct (leer_archivos path_join read_csv data_dir (pre ++ g :: post)) as [t r].
    cbn [fst snd] in IH1, IH2. subst r. split; [reflexivity|].
    cbn [io_bind emit fst app reads_of map]. rewrite IH2. reflexivity.
Qed.

(** X10. A file that cannot be read stops the ingestion: when the first
    unreadable file, in ascending order of the names, is [g],
    [cargar_todo] raises the error of reading [g]; the files before [g]
    have been read, [g] is the last file opened, and no table is returned. *)
Theorem cargar_todo_unreadable_file (data_dir : string) (names pre post : list string)
        (g : string) :
  listdir data_dir = Some names ->
  sort_stable String.compare (filter es_archivo_emisiones names) = pre ++ g :: post ->
  (forall f, In f pre -> read_csv (path_join data_dir f) <> None) ->
  read_csv (path_join data_dir g) = None ->
  snd (cargar_todo listdir path_join read_csv data_dir)
  = Raise (ParserError (path_join data_dir g))
  /\ reads_of (fst (cargar_todo listdir path_join read_csv data_dir))
     = map (path_join data_dir) (pre ++ [g]).
Proof.
  intros Hl Hfiles Hpre Hg.
  rewrite (cargar_todo_eq listdir path_join read_csv data_dir names Hl), Hfiles.
  destruct (leer_archivos_unreadable data_dir pre post g Hpre Hg) as [H1 H2].
  destruct (pre ++ g :: post) as [|f0 fs] eqn:E.
  - destruct pre; discriminate.
  - destruct (leer_archivos path_join read_csv data_dir (f0 :: fs)) as [t r].
    cbn [fst snd] in H1, H2. subst r. split; [reflexivity | exact H2].
Qed.

End IngestionFailure.

(* ================================================================== *)
(** * Further properties of the aggregation engine                     *)
(* ================================================================== *)

Lemma notna_values_cons (v : option Q) (l : list (option Q)) :
  notna_values (v :: l) = notna_values [v] ++ notna_values l.
Proof. unfold notna_values. simpl. rewrite app_nil_r. reflexivity. Qed.

Lemma length_notna_filter_cons (f : LongRecord -> bool) (r : LongRecord)
      (df : list LongRecord) :
  List.length (notna_values (map VALOR (filter f (r :: df))))
  = ((if f r then List.length (notna_values [VALOR r]) else 0%nat)
     + List.length (notna_values (map VALOR (filter f df))))%nat.
Proof.
  cbn [filter]. destruct (f r); [|reflexivity].
  rewrite map_cons, notna_values_cons, length_app. reflexivity.
Qed.

Lemma list_sum_cons (a : nat) (l : list nat) :
  list_sum (a :: l) = (a + list_sum l)%nat.
Proof. reflexivity. Qed.

Section GroupFacts.
Context {K : Type}.
Variable cmp : K -> K -> comparison.
Hypothesis cmp_anti : cmp_antisym cmp.
Hypothesis cmp_trans : cmp_eq_trans cmp.
Variable key : LongRecord -> option K.

(** Keys that are equal for [cmp] select the same records. *)
Lemma in_group_equiv (k k' : K) (r : LongRecord) :
  cmp k k' = Eq -> in_group cmp key k r = in_group cmp key k' r.
Proof.
  intros E. unfold in_group. destruct (key r) as [k0|]; [|reflexivity].
  destruct (cmp k k0) eqn:E1.
  - rewrite (cmp_trans k k' k0 E E1). reflexivity.
  - destruct (cmp k' k0) eqn:E2; [|reflexivity|reflexivity].
    rewrite (cmp_Eq_chain cmp k k' k0 cmp_anti cmp_trans E E2) in E1. discriminate.
  - destruct (cmp k' k0) eqn:E2; [|reflexivity|reflexivity].
    rewrite (cmp_Eq_chain cmp k k' k0 cmp_anti cmp_trans E E2) in E1. discriminate.
Qed.

Lemma Distinct_one_hit (ks : list K) (k' : K) (w : nat) :
  Distinct cmp ks -> (exists k, In k ks /\ cmp k k' = Eq) ->
  list_sum (map (fun k => if eqb_of (cmp k k') then w else 0%nat) ks) = w.
Proof.
  induction 1 as [|a l Ha Hl IH]; intros [k [Hk E]].
  - destruct Hk.
  - rewrite map_cons, list_sum_cons. destruct (cmp a k') eqn:Ea; cbn [eqb_of].
    + assert (list_sum (map (fun k0 => if eqb_of (cmp k0 k') then w else 0%nat) l)
              = 0%nat) as ->; [|lia].
      clear IH Hk E k. induction l as [|b l IHl]; [reflexivity|].
      rewrite map_cons, list_sum_cons.
      inversion Hl as [|? ? Hb Hl']; subst.
      destruct (cmp b k') eqn:Eb; cbn [eqb_of Nat.add].
      * exfalso. apply (Ha b (or_introl eq_refl)).
        apply (cmp_trans k' a b); apply cmp_eq_sym; assumption.
      * apply IHl; [intros c Hc; apply Ha; right; exact Hc | exact Hl'].
      * apply IHl; [intros c Hc; apply Ha; right; exact Hc | exact Hl'].
    + destruct Hk as [->|Hk]; [congruence|]. cbn [Nat.add]. apply IH. exists k. auto.
    + destruct Hk as [->|Hk]; [congruence|]. cbn [Nat.add]. apply IH. exists k. auto.
Qed.

Lemma no_hit_sum (ks : list K) (f : K -> bool) (w : nat) :
  (forall k, In k ks -> f k = false) ->
  list_sum (map (fun k => if f k then w else 0%nat) ks) = 0%nat.
Proof.
  induction ks as [|a l IH]; intros H; [reflexivity|].
  rewrite map_cons, list_sum_cons, (H a (or_introl eq_refl)). cbn [Nat.add].
  apply IH. intros k Hk. apply H. right. exact Hk.
Qed.

Lemma list_sum_map_add {A : Type} (f g : A -> nat) (l : list A) :
  list_sum (map (fun x => (f x + g x)%nat) l)
  = (list_sum (map f l) + list_sum (map g l))%nat.
Proof.
  induction l as [|a l IH]; [reflexivity|].
  rewrite !map_cons, !list_sum_cons, IH. lia.
Qed.

(** Every record with a key and a value is counted in exactly one group. *)
Lemma group_counts_total (ks : list K) (df : list LongRecord) :
  Distinct cmp ks ->
  (forall r k', In r df -> key r = Some k' -> exists k, In k ks /\ cmp k k' = Eq) ->
  list_sum (map (fun k => List.length (notna_values
                             (map VALOR (filter (in_group cmp key k) df)))) ks)
  = List.length (notna_values
       (map VALOR (filter (fun r => match key r with Some _ => true | None => false end)
                          df))).
Proof.
  intros Hd. induction df as [|r df IH]; intros Hcov.
  - cbn [filter map notna_values flat_map List.length].
    apply (no_hit_sum ks (fun _ => false) 0%nat). reflexivity.
  - rewrite (map_ext _ _ (fun k => length_notna_filter_cons (in_group cmp key k) r df)).
    rewrite list_sum_map_add, IH
      by (intros r0 k' Hr0; apply Hcov; right; exact Hr0).
    rewrite length_notna_filter_cons. f_equal.
    destruct (key r) as [k'|] eqn:Ek.
    + rewrite (map_ext (fun k => if in_group cmp key k r
                                 then List.length (notna_values [VALOR r]) else 0%nat)
                       (fun k => if eqb_of (cmp k k')
                                 then List.length (notna_values [VALOR r]) else 0%nat))
        by (intros k; unfold in_group; rewrite Ek; reflexivity).
      apply (Distinct_one_hit ks k' _ Hd (Hcov r k' (or_introl eq_refl) Ek)).
    + apply (no_hit_sum ks (fun k => in_group cmp key k r)).
      intros k _. unfold in_group. rewrite Ek. reflexivity.
Qed.

End GroupFacts.

Lemma Sorted_Distinct_strict {A : Type} (cmp : A -> A -> comparison) (l : list A) :
  Sorted (le_of cmp) l -> Distinct cmp l -> Sorted (fun a b => cmp a b = Lt) l.
Proof.
  induction 1 as [|a l Hs IH Hhd]; intros Hd; constructor.
  - apply IH. inversion Hd; assumption.
  - destruct Hhd as [|b l' Hab]; constructor.
    inversion Hd as [|? ? Ha _]; subst.
    specialize (Ha b (or_introl eq_refl)). unfold le_of in Hab.
    destruct (cmp a b); congruence.
Qed.

(** X11. The summary lists its groups in strictly ascending order of
    (ESTACION, MAGNITUD), and its counts add up to the number of records
    that have a station, a pollutant and a value: no measurement is counted
    twice or left out. *)
Theorem resumen_estadistico_order_and_total (df : list LongRecord) :
  Sorted (fun a b => pair_compare (s_ESTACION a, s_MAGNITUD a)
                                  (s_ESTACION b, s_MAGNITUD b) = Lt)
         (resumen_estadistico df)
  /\ list_sum (map count (resumen_estadistico df))
     = List.length
         (filter (fun r => negb (isna (ESTACION r)) && negb (isna (MAGNITUD r))
                           && match VALOR r with Some _ => true | None => false end)
                 df).
Proof.
  rewrite resumen_estadistico_eq.
  set (ks := sorted_unique pair_compare (keys_of key_estacion_magnitud df)).
  assert (Distinct pair_compare ks) as Hd
      by (apply sorted_unique_Distinct; exact pair_compare_antisym).
  split.
  - assert (Sorted (fun a b => pair_compare a b = Lt) ks) as Hs.
    { apply Sorted_Distinct_strict; [|exact Hd].
      apply sorted_unique_Sorted. exact pair_compare_antisym. }
    clear Hd. induction Hs as [|k l Hs IH Hhd]; cbn [map]; constructor.
    + exact IH.
    + destruct Hhd as [|k2 l' Hk]; cbn [map]; constructor.
      destruct k, k2. exact Hk.
  - rewrite map_map. cbn [summary_of count agg_count].
    rewrite (map_ext _ (fun k => List.length (notna_values
               (map VALOR (filter (in_group pair_compare key_estacion_magnitud k) df)))))
      by (intros k; unfold valores_de;
          rewrite (filter_ext _ _ (in_group_estacion_magnitud k)); reflexivity).
    rewrite (group_counts_total pair_compare pair_compare_antisym
               pair_compare_eq_trans key_estacion_magnitud ks df Hd).
    + clear. induction df as [|r df IH]; [reflexivity|].
      rewrite length_notna_filter_cons, IH. cbn [filter].
      unfold key_estacion_magnitud.
      destruct (isna (ESTACION r)); cbn [orb negb andb]; [reflexivity|].
      destruct (isna (MAGNITUD r)); cbn [negb andb]; [reflexivity|].
      destruct (VALOR r); reflexivity.
    + intros r k' Hr Hk.
      apply (sorted_unique_covers pair_compare pair_compare_antisym
               pair_compare_eq_trans).
      apply keys_of_In. exists r. auto.
Qed.

Lemma find_combine_hit {A B : Type} (f : A -> bool) (g : A -> B) (l : list A) :
  (exists x, In x l /\ f x = true) ->
  exists x, find (fun p => f (fst p)) (combine l (map g l)) = Some (x, g x)
            /\ In x l /\ f x = true.
Proof.
  induction l as [|a l IH]; intros [x [Hx Hf]].
  - destruct Hx.
  - cbn [map combine find fst]. destruct (f a) eqn:E.
    + exists a. split; [reflexivity|]. split; [left; reflexivity | exact E].
    + destruct Hx as [->|Hx]; [congruence|].
      destruct (IH (ex_intro _ x (conj Hx Hf))) as [y [Hy [Hin Hfy]]].
      exists y. split; [exact Hy|]. split; [right; exact Hin | exact Hfy].
Qed.

Section PivotCells.
Context {I C : Type}.
Variable cmpI : I -> I -> comparison.
Variable cmpC : C -> C -> comparison.
Hypothesis cmpI_anti : cmp_antisym cmpI.
Hypothesis cmpI_trans : cmp_eq_trans cmpI.
Hypothesis cmpC_anti : cmp_antisym cmpC.
Hypothesis cmpC_trans : cmp_eq_trans cmpC.

(** A cell whose labels match some entry holds the value of an entry with
    those labels. *)
Lemma matrix_get_unstack_hit (entries : list ((I * C) * option Q)) (i : I) (c : C)
      (e0 : (I * C) * option Q) :
  In e0 entries -> cmpI i (fst (fst e0)) = Eq -> cmpC c (snd (fst e0)) = Eq ->
  exists e, In e entries /\ cmpI i (fst (fst e)) = Eq /\ cmpC c (snd (fst e)) = Eq
            /\ matrix_get cmpI cmpC (unstack cmpI cmpC entries) i c = snd e.
Proof.
  intros He0 Hi Hc. unfold matrix_get, unstack. cbn [index mcolumns mvalues].
  set (idx := sorted_unique cmpI (map (fun e => fst (fst e)) entries)).
  set (cols := sorted_unique cmpC (map (fun e => snd (fst e)) entries)).
  assert (exists x, In x idx /\ eqb_of (cmpI i x) = true) as Hidx.
  { destruct (sorted_unique_covers cmpI cmpI_anti cmpI_trans
                (map (fun e => fst (fst e)) entries) (fst (fst e0)))
      as [x [Hx E]]; [apply (in_map (fun e => fst (fst e))), He0|].
    exists x. split; [exact Hx|].
    rewrite (cmp_Eq_chain cmpI i (fst (fst e0)) x cmpI_anti cmpI_trans Hi
               (cmp_eq_sym cmpI cmpI_anti _ _ E)). reflexivity. }
  assert (exists x, In x cols /\ eqb_of (cmpC c x) = true) as Hcols.
  { destruct (sorted_unique_covers cmpC cmpC_anti cmpC_trans
                (map (fun e => snd (fst e)) entries) (snd (fst e0)))
      as [x [Hx E]]; [apply (in_map (fun e => snd (fst e))), He0|].
    exists x. split; [exact Hx|].
    rewrite (cmp_Eq_chain cmpC c (snd (fst e0)) x cmpC_anti cmpC_trans Hc
               (cmp_eq_sym cmpC cmpC_anti _ _ E)). reflexivity. }
  destruct (find_combine_hit (fun x => eqb_of (cmpI i x))
              (fun i' => map (fun c' => entry_value cmpI cmpC entries i' c') cols)
              idx Hidx) as [i' [-> [_ Hi']]].
  destruct (find_combine_hit (fun x => eqb_of (cmpC c x))
              (fun c' => entry_value cmpI cmpC entries i' c')
              cols Hcols) as [c' [-> [_ Hc']]].
  destruct (cmpI i i') eqn:Eii; try discriminate.
  destruct (cmpC c c') eqn:Ecc; try discriminate.
  unfold entry_value.
  destruct (find (same_entry cmpI cmpC i' c') entries) as [e|] eqn:Ef.
  - apply find_some in Ef. destruct Ef as [He Hs].
    unfold same_entry in Hs. apply andb_true_iff in Hs. destruct Hs as [Hs1 Hs2].
    destruct (cmpI i' (fst (fst e))) eqn:E1; try discriminate.
    destruct (cmpC c' (snd (fst e))) eqn:E2; try discriminate.
    exists e. split; [exact He|].
    split; [eapply cmp_Eq_chain; eassumption|].
    split; [eapply cmp_Eq_chain; eassumption | reflexivity].
  - exfalso. apply (find_none _ _ Ef) in He0. unfold same_entry in He0.
    rewrite (cmpI_trans i i' (fst (fst e0)) Eii Hi) in He0.
    rewrite (cmpC_trans c c' (snd (fst e0)) Ecc Hc) in He0. discriminate.
Qed.

End PivotCells.


Lemma Z_compare_eqb (a b : Z) : eqb_of (a ?= b) = (b =? a).
Proof.
  destruct (Z.compare_spec a b) as [->|H|H]; cbn [eqb_of].
  - symmetry. apply Z.eqb_refl.
  - symmetry. apply Z.eqb_neq. lia.
  - symmetry. apply Z.eqb_neq. lia.
Qed.



Lemma sorted_unique_strict {A : Type} (cmp : A -> A -> comparison) (l : list A) :
  cmp_antisym cmp -> Sorted (fun a b => cmp a b = Lt) (sorted_unique cmp l).
Proof.
  intros Ha. apply Sorted_Distinct_strict.
  - apply sorted_unique_Sorted, Ha.
  - apply sorted_unique_Distinct, Ha.
Qed.


Section DistinctFacts.
Context {A : Type}.
Variable cmp : A -> A -> comparison.
Hypothesis cmp_anti : cmp_antisym cmp.

(** In a list without ties, two entries that tie are the same entry. *)
Lemma Distinct_In_eq (l : list A) (a b : A) :
  Distinct cmp l -> In a l -> In b l -> cmp a b = Eq -> a = b.
Proof.
  induction 1 as [|x l Hx Hl IH]; intros Ha Hb E.
  - destruct Ha.
  - destruct Ha as [->|Ha]; destruct Hb as [->|Hb].
    + reflexivity.
    + exfalso. exact (Hx b Hb E).
    + exfalso. apply (Hx a Ha). apply cmp_eq_sym; assumption.
    + apply IH; assumption.
Qed.

Lemma Distinct_filter_single {B : Type} (key : B -> A) (l : list B) (x : B) :
  Distinct cmp (map key l) -> In x l ->
  filter (fun y => eqb_of (cmp (key x) (key y))) l = [x].
Proof.
  induction l as [|a l IH]; intros Hd Hx.
  - destruct Hx.
  - cbn [map] in Hd. inversion Hd as [|? ? Ha Hl]; subst. cbn [filter].
    destruct Hx as [->|Hx].
    + rewrite (cmp_refl cmp cmp_anti). cbn [eqb_of]. f_equal.
      apply filter_none. intros y Hy.
      specialize (Ha (key y) (in_map key l y Hy)).
      destruct (cmp (key x) (key y)); [congruence|reflexivity|reflexivity].
    + assert (cmp (key x) (key a) <> Eq) as Hne.
      { intros E. apply (Ha (key x) (in_map key l x Hx)).
        apply cmp_eq_sym; assumption. }
      destruct (cmp (key x) (key a)); [congruence| |]; cbn [eqb_of];
        apply IH; assumption.
Qed.

End DistinctFacts.

Lemma agg_mean_single (v : option Q) :
  opt_Qeq (agg_mean (notna_values [v])) v.
Proof.
  destruct v as [[n d]|]; [|exact I].
  cbn [notna_values flat_map app agg_mean opt_Qeq].
  unfold Qeq, Qdiv, Qsum, Qlen, Qmult, Qplus, Qinv. simpl. lia.
Qed.

Lemma opt_Qeq_Some (a : option Q) (q : Q) :
  opt_Qeq a (Some q) -> exists q', a = Some q'.
Proof. destruct a as [q'|]; [eexists; reflexivity | intros []]. Qed.

Section PivotTableCells.
Context {I C : Type}.
Variable cmpI : I -> I -> comparison.
Variable cmpC : C -> C -> comparison.
Hypothesis cmpI_anti : cmp_antisym cmpI.
Hypothesis cmpI_trans : cmp_eq_trans cmpI.
Hypothesis cmpC_anti : cmp_antisym cmpC.
Hypothesis cmpC_trans : cmp_eq_trans cmpC.

Let pcmp (a b : I * C) : comparison :=
  lex (cmpI (fst a) (fst b)) (cmpC (snd a) (snd b)).

Lemma pcmp_antisym : cmp_antisym pcmp.
Proof. apply (lex_antisym fst snd cmpI cmpC); assumption. Qed.

Lemma pcmp_eq_trans : cmp_eq_trans pcmp.
Proof. apply (lex_eq_trans fst snd cmpI cmpC); assumption. Qed.

(** When the entries have distinct keys, the cell of [pivot_table] at the
    labels of an entry holds the value of that entry. *)
Lemma pivot_table_cell (entries : list ((I * C) * option Q)) (i : I) (c : C)
      (e0 : (I * C) * option Q) :
  Distinct pcmp (map fst entries) ->
  In e0 entries -> cmpI i (fst (fst e0)) = Eq -> cmpC c (snd (fst e0)) = Eq ->
  opt_Qeq (matrix_get cmpI cmpC (pivot_table cmpI cmpC entries) i c) (snd e0).
Proof.
  intros Hd He0 Hi Hc.
  assert (forall e, In e entries -> pcmp (i, c) (fst e) = Eq -> e = e0) as Huniq.
  { intros e He E.
    assert (fst e = fst e0) as Hk.
    { apply (Distinct_In_eq pcmp pcmp_antisym (map fst entries));
        [exact Hd | apply in_map, He | apply in_map, He0|].
      apply (pcmp_eq_trans (i, c)); [exact E|].
      unfold pcmp. cbn [fst snd]. rewrite Hi, Hc. reflexivity. }
    pose proof (Distinct_filter_single pcmp pcmp_antisym fst entries e0 Hd He0) as Hf.
    assert (In e (filter (fun y => eqb_of (pcmp (fst e0) (fst y))) entries)) as Hin.
    { apply filter_In. split; [exact He|]. rewrite Hk.
      rewrite (cmp_refl pcmp pcmp_antisym). reflexivity. }
    rewrite Hf in Hin. destruct Hin as [<-|[]]. reflexivity. }
  assert (forall k, In k (map fst entries) -> pcmp (i, c) k = Eq ->
            agg_mean (notna_values
              (map snd (filter (same_entry cmpI cmpC (fst k) (snd k)) entries)))
            = agg_mean (notna_values [snd e0])) as Hval.
  { intros k Hk E. apply in_map_iff in Hk. destruct Hk as [e [<- He]].
    rewrite (Huniq e He E) in *.
    rewrite (filter_ext _ (fun y => eqb_of (pcmp (fst e0) (fst y)))).
    - rewrite (Distinct_filter_single pcmp pcmp_antisym fst entries e0 Hd He0).
      reflexivity.
    - intros y. rewrite same_entry_pair. destruct (fst e0). reflexivity. }
  unfold pivot_table.
  set (F := fun k : I * C =>
              (k, agg_mean (notna_values
                    (map snd (filter (same_entry cmpI cmpC (fst k) (snd k)) entries))))).
  set (agged := map F (sorted_unique _ (map fst entries))).
  destruct (snd e0) as [v|] eqn:Ev.
  - assert (exists e1, In e1 (filter (fun e => match snd e with
                                                | Some _ => true | None => false end)
                                     agged)
                       /\ cmpI i (fst (fst e1)) = Eq /\ cmpC c (snd (fst e1)) = Eq)
      as [e1 [He1 [Hi1 Hc1]]].
    { destruct (sorted_unique_covers pcmp pcmp_antisym pcmp_eq_trans
                  (map fst entries) (fst e0) (in_map fst _ _ He0)) as [k [Hk E]].
      assert (pcmp (i, c) k = Eq) as Eik.
      { apply (cmp_Eq_chain pcmp (i, c) (fst e0) k pcmp_antisym pcmp_eq_trans).
        - unfold pcmp. cbn [fst snd]. rewrite Hi, Hc. reflexivity.
        - apply (cmp_eq_sym pcmp pcmp_antisym). exact E. }
      exists (F k). split.
      - apply filter_In. split.
        + unfold agged. apply (in_map F). exact Hk.
        + unfold F. cbn [snd]. rewrite (Hval k (sorted_unique_In pcmp _ _ Hk) Eik).
          reflexivity.
      - unfold pcmp in Eik. apply lex_Eq in Eik. exact Eik. }
    destruct (matrix_get_unstack_hit cmpI cmpC cmpI_anti cmpI_trans cmpC_anti
                cmpC_trans _ i c e1 He1 Hi1 Hc1) as [e [He [Hie [Hce ->]]]].
    apply filter_In in He. destruct He as [He _]. unfold agged in He.
    apply in_map_iff in He. destruct He as [k [<- Hk]]. unfold F in *.
    cbn [fst snd] in *.
    rewrite (Hval k (sorted_unique_In pcmp _ _ Hk)).
    + apply (agg_mean_single (Some v)).
    + unfold pcmp. cbn [fst snd]. rewrite Hie, Hce. reflexivity.
  - destruct (matrix_get _ _ _ i c) as [q|] eqn:E; [|exact Logic.I]. exfalso.
    apply (matrix_get_unstack cmpI cmpC cmpI_anti cmpI_trans cmpC_anti cmpC_trans)
      in E.
    destruct E as [e [He [Hie [Hce Hq]]]].
    apply filter_In in He. destruct He as [He _]. unfold agged in He.
    apply in_map_iff in He. destruct He as [k [<- Hk]]. unfold F in *.
    cbn [fst snd] in *.
    rewrite (Hval k (sorted_unique_In pcmp _ _ Hk)) in Hq.
    + discriminate Hq.
    + unfold pcmp. cbn [fst snd]. rewrite Hie, Hce. reflexivity.
Qed.

End PivotTableCells.

Lemma ZZ_cell_compare_antisym : cmp_antisym ZZ_cell_compare.
Proof.
  apply (lex_antisym fst snd ZZ_compare cell_compare);
    [exact ZZ_compare_antisym | exact cell_compare_antisym].
Qed.

Lemma ZZ_cell_compare_eq_trans : cmp_eq_trans ZZ_cell_compare.
Proof.
  apply (lex_eq_trans fst snd ZZ_compare cell_compare);
    [exact ZZ_compare_eq_trans | exact cell_compare_eq_trans].
Qed.

(** The records of the group of year [y], month [mes] and pollutant [mag]. *)
Lemma in_group_ano_mes_magnitud (y mes : Z) (mag : cell) (r : LongRecord) :
  in_group ZZ_cell_compare key_ano_mes_magnitud ((y, mes), mag) r
  = opt_Z_eqb (ANO r) y && opt_Z_eqb (MES r) mes && cell_eqb mag (MAGNITUD r).
Proof.
  unfold in_group, key_ano_mes_magnitud, ZZ_cell_compare, ZZ_compare, opt_Z_eqb.
  destruct (ANO r) as [a|]; [|reflexivity].
  destruct (MES r) as [m|]; [|rewrite andb_false_r; reflexivity].
  destruct (isna (MAGNITUD r)) eqn:E.
  - destruct (MAGNITUD r); try discriminate.
    destruct mag; rewrite ?andb_false_r; reflexivity.
  - cbn [fst snd]. rewrite <- (cell_eqb_compare mag _ E), <- !Z_compare_eqb.
    destruct (y ?= a); destruct (mes ?= m);
      destruct (cell_compare mag (MAGNITUD r)); reflexivity.
Qed.

(** X14. Content of the monthly matrix of a station: the cell of year [y],
    month [mes] and pollutant [mag] is the mean of the non-missing values
    of the records of the station (and of the year asked for, if any) with
    that year, month and pollutant, and is missing when there is no such
    value. *)
Theorem medidas_mensuales_cell (df_long : list LongRecord) (estacion_codigo : Z)
        (ano : option Z) (y mes : Z) (mag : cell) :
  opt_Qeq
    (matrix_get ZZ_compare cell_compare
                (medidas_mensuales_por_estacion df_long estacion_codigo ano)
                (y, mes) mag)
    (agg_mean (notna_values (map VALOR
       (filter (fun r => coincide_estacion estacion_codigo ano r
                         && (opt_Z_eqb (ANO r) y && opt_Z_eqb (MES r) mes
                             && cell_eqb mag (MAGNITUD r)))
               df_long)))).
Proof.
  rewrite medidas_mensuales_por_estacion_eq, <- filter_filter.
  set (tmp := filter (coincide_estacion estacion_codigo ano) df_long).
  rewrite <- (filter_ext _ _ (in_group_ano_mes_magnitud y mes mag)).
  set (K0 := ((y, mes), mag)).
  set (entries := groupby_VALOR ZZ_cell_compare key_ano_mes_magnitud agg_mean tmp).
  destruct (filter (in_group ZZ_cell_compare key_ano_mes_magnitud K0) tmp)
    as [|r0 rest] eqn:Ef.
  - cbn [map notna_values flat_map agg_mean].
    destruct (matrix_get _ _ _ (y, mes) mag) as [q|] eqn:E; [|exact I]. exfalso.
    apply (matrix_get_pivot_table ZZ_compare cell_compare ZZ_compare_antisym
             ZZ_compare_eq_trans cell_compare_antisym cell_compare_eq_trans) in E.
    destruct E as [e [He [Hym Hmag]]].
    apply groupby_VALOR_In in He. destruct He as [r [Hr Hkey]].
    assert (In r (filter (in_group ZZ_cell_compare key_ano_mes_magnitud K0) tmp)) as Hin.
    { apply filter_In. split; [exact Hr|]. unfold in_group. rewrite Hkey.
      unfold ZZ_cell_compare, K0. cbn [fst snd]. rewrite Hym, Hmag. reflexivity. }
    rewrite Ef in Hin. destruct Hin.
  - rewrite <- Ef.
    assert (In r0 tmp /\ in_group ZZ_cell_compare key_ano_mes_magnitud K0 r0 = true)
      as [Hr0 Hg0].
    { apply filter_In. rewrite Ef. left. reflexivity. }
    unfold in_group in Hg0. destruct (key_ano_mes_magnitud r0) as [k0|] eqn:Ek0;
      [|discriminate].
    destruct (sorted_unique_covers ZZ_cell_compare ZZ_cell_compare_antisym
                ZZ_cell_compare_eq_trans (keys_of key_ano_mes_magnitud tmp) k0)
      as [k [Hk Ekk0]]; [apply keys_of_In; exists r0; auto|].
    assert (ZZ_cell_compare K0 k = Eq) as Esk.
    { apply (cmp_Eq_chain ZZ_cell_compare K0 k0 k ZZ_cell_compare_antisym
               ZZ_cell_compare_eq_trans).
      - destruct (ZZ_cell_compare K0 k0); [reflexivity|discriminate|discriminate].
      - apply (cmp_eq_sym ZZ_cell_compare ZZ_cell_compare_antisym). exact Ekk0. }
    set (e0 := (k, agg_mean (notna_values
                   (map VALOR (filter (in_group ZZ_cell_compare
                                                key_ano_mes_magnitud k) tmp))))).
    assert (In e0 entries) as He0.
    { unfold entries, groupby_VALOR.
      apply (in_map (fun k => (k, agg_mean (notna_values
               (map VALOR (filter (in_group ZZ_cell_compare
                                            key_ano_mes_magnitud k) tmp)))))).
      exact Hk. }
    assert (Distinct ZZ_cell_compare (map fst entries)) as Hd.
    { unfold entries. rewrite groupby_VALOR_keys.
      apply sorted_unique_Distinct. exact ZZ_cell_compare_antisym. }
    pose proof Esk as Esk'. unfold ZZ_cell_compare, K0 in Esk'.
    apply lex_Eq in Esk'. cbn [fst snd] in Esk'.
    pose proof (pivot_table_cell ZZ_compare cell_compare ZZ_compare_antisym
                  ZZ_compare_eq_trans cell_compare_antisym cell_compare_eq_trans
                  entries (y, mes) mag e0 Hd He0 (proj1 Esk') (proj2 Esk')) as H.
    cbn [e0 snd] in H.
    rewrite (filter_ext _ _
               (fun r => in_group_equiv ZZ_cell_compare ZZ_cell_compare_antisym
                           ZZ_cell_compare_eq_trans key_ano_mes_magnitud K0 k r Esk)).
    exact H.
Qed.

(* ================================================================== *)
(** * Catalogue of years and default selection                         *)
(* ================================================================== *)

Lemma catalogo_anos_In (validas : list LongRecord) (y : Z) :
  In y (catalogo_anos validas) <-> exists r, In r validas /\ ANO r = Some y.
Proof.
  unfold catalogo_anos. split.
  - intros H. apply sorted_unique_In in H. apply (keys_of_In ANO) in H. exact H.
  - intros H. apply (keys_of_In ANO) in H.
    destruct (sorted_unique_covers Z.compare Z_compare_antisym Z_compare_eq_trans
                _ y H) as [z [Hz E]].
    apply Z.compare_eq in E. subst z. exact Hz.
Qed.

(** X15. The catalogue of years lists, in strictly ascending order, exactly the
    years that occur in the table; the year used for the examples is the
    one asked for, or else the earliest year of the table, or none when the
    table has no year. *)
Theorem ejemplo_ano_default (validas : list LongRecord) :
  Sorted Z.lt (catalogo_anos validas)
  /\ (forall y, In y (catalogo_anos validas)
                <-> exists r, In r validas /\ ANO r = Some y)
  /\ (forall a, ejemplo_ano (Some a) validas = Some a)
  /\ (ejemplo_ano None validas = None <-> forall r, In r validas -> ANO r = None)
  /\ (forall y, ejemplo_ano None validas = Some y ->
        (exists r, In r validas /\ ANO r = Some y)
        /\ forall r a, In r validas -> ANO r = Some a -> y <= a).
Proof.
  assert (Sorted Z.lt (catalogo_anos validas)) as Hs
      by (apply (sorted_unique_strict Z.compare); exact Z_compare_antisym).
  split; [exact Hs|]. split; [apply catalogo_anos_In|]. split; [reflexivity|].
  pose proof (catalogo_anos_In validas) as Hin.
  unfold ejemplo_ano, ejemplo_por_defecto.
  destruct (catalogo_anos validas) as [|y0 l] eqn:E.
  - split.
    + split; [|reflexivity]. intros _ r Hr.
      destruct (ANO r) as [a|] eqn:Ea; [|reflexivity].
      exfalso. apply (proj2 (Hin a)). exists r. auto.
    + discriminate.
  - split.
    + split; [discriminate|]. intros H. exfalso.
      destruct (proj1 (Hin y0) (or_introl eq_refl)) as [r [Hr Ha]].
      rewrite (H r Hr) in Ha. discriminate.
    + intros y Hy. injection Hy as <-. split; [apply Hin; left; reflexivity|].
      intros r a Hr Ha.
      assert (In a (y0 :: l)) as Hal by (apply Hin; exists r; auto).
      destruct Hal as [->|Hal]; [lia|].
      apply Sorted_StronglySorted in Hs; [|intros x1 x2 x3; apply Z.lt_trans].
      inversion Hs as [|? ? _ Hall]; subst. rewrite Forall_forall in Hall.
      specialize (Hall a Hal). lia.
Qed.

(* ================================================================== *)
(** * Plots                                                            *)
(* ================================================================== *)








Section PivotTableShape.
Context {I C : Type}.
Variable cmpI : I -> I -> comparison.
Variable cmpC : C -> C -> comparison.
Hypothesis cmpI_anti : cmp_antisym cmpI.
Hypothesis cmpI_trans : cmp_eq_trans cmpI.
Hypothesis cmpC_anti : cmp_antisym cmpC.
Hypothesis cmpC_trans : cmp_eq_trans cmpC.

(** The averaged entries that [pivot_table] keeps. *)
Let kept (entries : list ((I * C) * option Q)) : list ((I * C) * option Q) :=
  filter (fun e => match snd e with Some _ => true | None => false end)
    (map (fun k => (k, agg_mean (notna_values
                     (map snd (filter (same_entry cmpI cmpC (fst k) (snd k)) entries)))))
         (sorted_unique (fun a b : I * C => lex (cmpI (fst a) (fst b))
                                                (cmpC (snd a) (snd b)))
                        (map fst entries))).


Lemma kept_filled (entries : list ((I * C) * option Q)) (e : (I * C) * option Q) :
  In e (kept entries) -> snd e <> None.
Proof.
  unfold kept. intros H. apply filter_In in H. destruct H as [_ H].
  destruct (snd e); [discriminate | discriminate H].
Qed.




End PivotTableShape.

Section GroupMeans.
Context {K : Type}.
Variable cmp : K -> K -> comparison.
Hypothesis cmp_anti : cmp_antisym cmp.
Hypothesis cmp_trans : cmp_eq_trans cmp.
Variable key : LongRecord -> option K.


End GroupMeans.




(* ================================================================== *)
(** * From the directory to the long table                             *)
(* ================================================================== *)


Section IngestedTable.

Variable listdir : string -> option (list string).
Variable path_join : string -> string -> string.
Variable read_csv : string -> option DataFrame.




End IngestedTable.

(* ================================================================== *)
(** * Printing helper                                                  *)
(* ================================================================== *)

Section PrettyIntFacts.

Variable int_of_str : string -> option Z.

Lemma pretty_fold (values out : list cell) :
  fold_left (pretty_append int_of_str) values out = out ++ map (pretty_cell int_of_str) values.
Proof.
  revert out. induction values as [|v values IH]; intros out.
  - cbn. rewrite app_nil_r. reflexivity.
  - cbn [fold_left map]. rewrite IH. unfold pretty_append, pretty_cell.
    destruct (int_of_cell int_of_str v); rewrite <- app_assoc; reflexivity.
Qed.

Lemma pretty_int_list_map (values : list cell) :
  _pretty_int_list int_of_str values = map (pretty_cell int_of_str) values.
Proof. unfold _pretty_int_list. apply pretty_fold. Qed.

Lemma int_of_cell_whole (z : Z) :
  int_of_cell int_of_str (Num (inject_Z z)) = Ok z.
Proof. cbn. rewrite Z.quot_1_r. reflexivity. Qed.

Lemma pretty_cell_idempotent (v : cell) :
  pretty_cell int_of_str (pretty_cell int_of_str v) = pretty_cell int_of_str v.
Proof.
  unfold pretty_cell at 2 3. destruct (int_of_cell int_of_str v) as [z|e] eqn:E.
  - unfold pretty_cell. rewrite int_of_cell_whole. reflexivity.
  - unfold pretty_cell. rewrite E. reflexivity.
Qed.

(** X19. [_pretty_int_list] keeps the length and the positions of the
    list; a number is replaced by its integer part (truncated towards
    zero), a string by the integer it denotes, and what [int] rejects (a
    missing value, any other string) stays as it is; it is idempotent, and
    a list of integers, such as the years of the catalogue, is returned
    unchanged. *)
Theorem pretty_int_list_spec (values : list cell) :
  List.length (_pretty_int_list int_of_str values) = List.length values
  /\ (forall i v, nth_error values i = Some v ->
        nth_error (_pretty_int_list int_of_str values) i
        = Some (match v with
                | Num q => Num (inject_Z (Z.quot (Qnum q) (Zpos (Qden q))))
                | Str s => match int_of_str s with
                           | Some z => Num (inject_Z z)
                           | None => Str s
                           end
                | NaN => NaN
                end))
  /\ _pretty_int_list int_of_str (_pretty_int_list int_of_str values)
     = _pretty_int_list int_of_str values
  /\ (forall zs : list Z,
        _pretty_int_list int_of_str (map (fun z => Num (inject_Z z)) zs)
        = map (fun z => Num (inject_Z z)) zs).
Proof.
  split; [|split; [|split]].
  - rewrite pretty_int_list_map. apply length_map.
  - intros i v Hv. rewrite pretty_int_list_map.
    rewrite nth_error_map, Hv. cbn [option_map]. f_equal.
    unfold pretty_cell. destruct v as [|q|s]; cbn; [reflexivity..|].
    destruct (int_of_str s); reflexivity.
  - rewrite !pretty_int_list_map, map_map. apply map_ext.
    intros v. apply pretty_cell_idempotent.
  - intros zs. rewrite pretty_int_list_map, map_map. apply map_ext.
    intros z. unfold pretty_cell. rewrite int_of_cell_whole. reflexivity.
Qed.

End PrettyIntFacts.

(* ================================================================== *)
(** * The further properties at sample tables                          *)
(* ================================================================== *)

Lemma NoDup_raw_ejemplo : NoDup (columns raw_ejemplo).
Proof. repeat (constructor; [simpl; intuition discriminate|]). constructor. Defined.



Lemma filtrar_columnas_idempotent_witness :
  NoDup (columns raw_ejemplo)
  /\ exists out, filtrar_columnas raw_ejemplo = Ok out
                 /\ filtrar_columnas out = Ok out.
Proof.
  split; [exact NoDup_raw_ejemplo|]. eexists. split; [reflexivity|].
  apply (filtrar_columnas_idempotent raw_ejemplo _ NoDup_raw_ejemplo). reflexivity.
Defined.





Lemma cargar_todo_cells_witness :
  exists raw,
    snd (cargar_todo listdir_ejemplo path_join_ejemplo read_csv_ejemplo "datos")
    = Ok raw
    /\ map (get_cell raw "__ARCHIVO__") (rows raw)
       = [Str "emisiones-2016.csv"; Str "emisiones-2017.csv"]
    /\ map (get_cell raw "ANO") (rows raw) = [Num 2016; Num 2017]
    /\ List.length (rows raw) = 2%nat.
Proof.
  destruct (cargar_todo_cells listdir_ejemplo path_join_ejemplo read_csv_ejemplo
              "datos" _ eq_refl) as [raw [Hok [Hcells Hlen]]].
  - discriminate.
  - intros f Hf. simpl in Hf. destruct Hf as [<-|[<-|[]]].
    + split; [discriminate | repeat constructor].
    + split; [discriminate | repeat constructor].
  - exists raw. split; [exact Hok|].
    split; [exact (Hcells "__ARCHIVO__")|].
    split; [exact (Hcells "ANO") | exact Hlen].
Defined.

Lemma cargar_todo_unreadable_file_witness :
  snd (cargar_todo listdir_roto path_join_ejemplo read_csv_ejemplo "datos")
  = Raise (ParserError "datos/emisiones-2018.csv")
  /\ reads_of (fst (cargar_todo listdir_roto path_join_ejemplo read_csv_ejemplo
                                "datos"))
     = ["datos/emisiones-2016.csv"; "datos/emisiones-2018.csv"].
Proof.
  apply (cargar_todo_unreadable_file listdir_roto path_join_ejemplo read_csv_ejemplo
           "datos" _ ["emisiones-2016.csv"] [] "emisiones-2018.csv" eq_refl eq_refl).
  - intros f Hf. simpl in Hf. destruct Hf as [<-|[]]. discriminate.
  - reflexivity.
Defined.



